(** * Colour_Models: the conversion engine of [mainwindow.cpp]

    The anonymous namespace at the top of [src/untitled/mainwindow.cpp]
    holds four value types ([RGB], [CMYK], [XYZ], [Lab]) and the free
    functions converting between them; the rest of the file is the
    window that calls them.  This file embeds both and proves the
    properties the specification states about the engine, and further
    properties that the code shows.

    Two embeddings of the engine are given.

    - The _real-arithmetic_ embedding (top level of this file) reads a C++
      [double] as a real number and keeps every operation of the source:
      [std::max], [std::round], [std::pow], [std::cbrt], the comparisons
      and the conversion to [int].  It covers all the functions.
      [std::pow] and [std::cbrt] have no bit-exact specification, so this
      is the level at which the XYZ and Lab paths can be stated.

    - The _binary64_ embedding ([Module Binary64]) covers the RGB/CMYK
      pair, which uses only correctly rounded IEEE-754 operations
      (conversion from [int], [+], [-], [*], [/], [<], rounding to an
      integer).  There a [double] is one of Rocq's primitive floats and
      every operation rounds as the hardware does (binary64, round to
      nearest even, no fused operations).

    A [double] is not a real number: what is an equality over the
    reals holds on the doubles up to rounding only, and a comparison
    can fall on the other side of a threshold.  Statements about the
    real-arithmetic embedding that compare computed values are
    therefore given with a margin that is far above the rounding error
    of the source on the stated domain, or they are about integers that
    the computed values determine with room to spare.

    The slots of the window are embedded over the real-arithmetic
    engine as functions on the state of the widgets. *)

From Stdlib Require Import Reals Lra Lia ZArith Bool List.
From Stdlib Require Import QArith Qreals.
From Stdlib Require Import Zfloor.
From Stdlib Require Import Floats.
Import ListNotations.

Set Warnings "-inexact-float".

Local Open Scope R_scope.

(** ** Value types

    [struct RGB { int r, g, b; }], [struct CMYK { double c, m, y, k; }],
    [struct XYZ { double X, Y, Z; }], [struct Lab { double L, a, b; }].
    Each record lives in a module of its own so that the fields keep the
    names they have in the source. *)

Module RGB.
Record t : Set := mk { r : Z; g : Z; b : Z }.
End RGB.

Module CMYK.
Record t : Type := mk { c : R; m : R; y : R; k : R }.
End CMYK.

Module XYZ.
Record t : Type := mk { X : R; Y : R; Z : R }.
End XYZ.

Module Lab.
Record t : Type := mk { L : R; a : R; b : R }.
End Lab.

(** ** Constants and primitive operations *)

Definition REF_X : R := 95.047.
Definition REF_Y : R := 100.0.
Definition REF_Z : R := 108.883.

(** The range of the 32-bit [int]. *)
Definition INT_MIN : Z := (-2147483648)%Z.
Definition INT_MAX : Z := 2147483647%Z.

(** [static inline int clampInt(int v, int lo, int hi)
      { return std::max(lo, std::min(hi, v)); }] *)
Definition clampInt (v lo hi : Z) : Z := Z.max lo (Z.min hi v).

(** The comparisons [<], [>] and [<=] on [double], as booleans. *)
Definition Rltb (x y : R) : bool := if Rlt_dec x y then true else false.
Definition Rgtb (x y : R) : bool := Rltb y x.
Definition Rleb (x y : R) : bool := if Rle_dec x y then true else false.

(** [std::max({a, b, c})]: the largest of three doubles. *)
Definition max3 (a b c : R) : R := Rmax (Rmax a b) c.

(** [std::round]: to the nearest integer, halfway cases away from zero. *)
Definition round (x : R) : R :=
  if Rleb 0 x then IZR (Zfloor (x + / 2)) else IZR (Zceil (x - / 2)).

(** Truncation toward zero, the value a conversion [double -> int] takes
    when it is representable. *)
Definition Ztrunc (x : R) : Z := if Rleb 0 x then Zfloor x else Zceil x.

(** [std::pow(x, y)].  The source calls it only behind a guard that makes
    [x] positive (see [Checked] below), where it is [exp (y * ln x)]. *)
Definition pow (x y : R) : R := Rpower x y.

(** [std::cbrt]: the real cube root, an odd function. *)
Definition cbrt (x : R) : R :=
  if Rltb 0 x then Rpower x (/ 3)
  else if Rltb x 0 then - Rpower (- x) (/ 3)
  else 0.

Section Engine.

(** The conversion [int(d)] of a double whose truncated value does not
    fit in [int] has no value fixed by the language (x86-64 yields
    [INT_MIN], AArch64 saturates).  The embedding leaves that value
    open: [cast_overflow d] is whatever [int] the platform produces. *)
Variable cast_overflow : R -> Z.

Definition to_int (d : R) : Z :=
  let z := Ztrunc d in
  if ((INT_MIN <=? z) && (z <=? INT_MAX))%Z then z else cast_overflow d.

(** *** RGB <-> CMYK *)

Definition rgbToCmyk (rgb : RGB.t) : CMYK.t :=
  let k := 1.0 - max3 (IZR (RGB.r rgb) / 255.0)
                      (IZR (RGB.g rgb) / 255.0)
                      (IZR (RGB.b rgb) / 255.0) in
  if Rltb k (1.0 - 1e-12) then
    let c := (1.0 - IZR (RGB.r rgb) / 255.0 - k) / (1.0 - k) in
    let m := (1.0 - IZR (RGB.g rgb) / 255.0 - k) / (1.0 - k) in
    let y := (1.0 - IZR (RGB.b rgb) / 255.0 - k) / (1.0 - k) in
    CMYK.mk c m y k
  else
    CMYK.mk 0.0 0.0 0.0 k.

Definition cmykToRgb (cmyk : CMYK.t) : RGB.t :=
  let r := 255.0 * (1.0 - CMYK.c cmyk) * (1.0 - CMYK.k cmyk) in
  let g := 255.0 * (1.0 - CMYK.m cmyk) * (1.0 - CMYK.k cmyk) in
  let b := 255.0 * (1.0 - CMYK.y cmyk) * (1.0 - CMYK.k cmyk) in
  RGB.mk (clampInt (to_int (round r)) 0 255)
         (clampInt (to_int (round g)) 0 255)
         (clampInt (to_int (round b)) 0 255).

(** *** RGB <-> XYZ *)

Definition invGamma (v : R) : R :=
  if Rleb v 0.04045 then v / 12.92
  else pow ((v + 0.055) / 1.055) 2.4.

Definition gammaSRGB (v : R) : R :=
  if Rleb v 0.0031308 then 12.92 * v
  else 1.055 * pow v (1.0 / 2.4) - 0.055.

Definition rgbToXyz (rgb : RGB.t) : XYZ.t :=
  let r := IZR (RGB.r rgb) / 255.0 in
  let g := IZR (RGB.g rgb) / 255.0 in
  let b := IZR (RGB.b rgb) / 255.0 in
  let rl := invGamma r in
  let gl := invGamma g in
  let bl := invGamma b in
  let X := rl * 0.4124564 + gl * 0.3575761 + bl * 0.1804375 in
  let Y := rl * 0.2126729 + gl * 0.7151522 + bl * 0.0721750 in
  let Z := rl * 0.0193339 + gl * 0.1191920 + bl * 0.9503041 in
  XYZ.mk (X * 100.0) (Y * 100.0) (Z * 100.0).

(** The three gamma-encoded channels [r], [g], [b] that [xyzToRgb]
    computes before it rounds. *)
Definition xyzToRgb_channels (xyz : XYZ.t) : R * R * R :=
  let x := XYZ.X xyz / 100.0 in
  let y := XYZ.Y xyz / 100.0 in
  let z := XYZ.Z xyz / 100.0 in
  let rl := x * 3.2406 + y * (-1.5372) + z * (-0.4986) in
  let gl := x * (-0.9689) + y * 1.8758 + z * 0.0415 in
  let bl := x * 0.0557 + y * (-0.2040) + z * 1.0570 in
  (gammaSRGB rl, gammaSRGB gl, gammaSRGB bl).

(** The rest of [xyzToRgb]: the flag and the three bytes, from the
    gamma-encoded channels. *)
Definition xyzToRgb_clip (r g b : R) : RGB.t * bool :=
  let clipped :=
    Rltb r 0.0 || Rgtb r 1.0 || Rltb g 0.0 || Rgtb g 1.0
    || Rltb b 0.0 || Rgtb b 1.0 in
  let Ri := clampInt (to_int (round (r * 255.0))) 0 255 in
  let Gi := clampInt (to_int (round (g * 255.0))) 0 255 in
  let Bi := clampInt (to_int (round (b * 255.0))) 0 255 in
  (RGB.mk Ri Gi Bi, clipped).

Definition xyzToRgb (xyz : XYZ.t) : RGB.t * bool :=
  let '(r, g, b) := xyzToRgb_channels xyz in
  xyzToRgb_clip r g b.

(** *** XYZ <-> Lab *)

(** The lambda [f] of [xyzToLab]. *)
Definition xyzToLab_f (t : R) : R :=
  let thresh := 0.008856 in
  if Rgtb t thresh then cbrt t
  else (7.787 * t) + (16.0 / 116.0).

Definition xyzToLab (xyz : XYZ.t) : Lab.t :=
  let xr := XYZ.X xyz / REF_X in
  let yr := XYZ.Y xyz / REF_Y in
  let zr := XYZ.Z xyz / REF_Z in
  let fx := xyzToLab_f xr in
  let fy := xyzToLab_f yr in
  let fz := xyzToLab_f zr in
  let L := 116.0 * fy - 16.0 in
  let a := 500.0 * (fx - fy) in
  let b := 200.0 * (fy - fz) in
  Lab.mk L a b.

(** The lambda [invf] of [labToXyz]. *)
Definition labToXyz_invf (t : R) : R :=
  let thresh := 0.008856 in
  if Rgtb (t * t * t) thresh then t * t * t
  else (t - 16.0 / 116.0) / 7.787.

Definition labToXyz (lab : Lab.t) : XYZ.t :=
  let fy := (Lab.L lab + 16.0) / 116.0 in
  let fx := Lab.a lab / 500.0 + fy in
  let fz := fy - Lab.b lab / 200.0 in
  let xr := labToXyz_invf fx in
  let yr := labToXyz_invf fy in
  let zr := labToXyz_invf fz in
  XYZ.mk (xr * REF_X) (yr * REF_Y) (zr * REF_Z).

(** *** Composite conversions *)

Definition rgbToLab (rgb : RGB.t) : Lab.t :=
  let xyz := rgbToXyz rgb in
  xyzToLab xyz.

Definition labToRgb (lab : Lab.t) : RGB.t * bool :=
  let xyz := labToXyz lab in
  xyzToRgb xyz.

End Engine.


(** ** The engine with its failure points made explicit

    The functions of [Engine] are total by construction.  To say that the
    source never fails, [Checked] writes the same eight functions again
    with every operation that can fail returning an [option]: a division
    fails on a zero divisor, [std::pow] fails outside a positive base
    (a negative base with the non-integer exponents used here is a domain
    error; at base zero the embedding [pow] does not follow [std::pow]
    either).  Each division and each call of [std::pow] of the source is
    one bind here, in the order the source evaluates them. *)

Module Checked.

Definition bind {A B : Type} (x : option A) (f : A -> option B) : option B :=
  match x with
  | Some a => f a
  | None => None
  end.

Notation "x <- e ;; k" := (bind e (fun x => k))
  (at level 61, e at next level, right associativity).

Definition div (x y : R) : option R :=
  if Req_dec_T y 0 then None else Some (x / y).

Definition pow (x y : R) : option R :=
  if Rltb 0 x then Some (Rpower x y) else None.

Section Engine.

Variable cast_overflow : R -> Z.

Definition rgbToCmyk (rgb : RGB.t) : option CMYK.t :=
  r1 <- div (IZR (RGB.r rgb)) 255.0 ;;
  g1 <- div (IZR (RGB.g rgb)) 255.0 ;;
  b1 <- div (IZR (RGB.b rgb)) 255.0 ;;
  let k := 1.0 - max3 r1 g1 b1 in
  if Rltb k (1.0 - 1e-12) then
    r2 <- div (IZR (RGB.r rgb)) 255.0 ;;
    c <- div (1.0 - r2 - k) (1.0 - k) ;;
    g2 <- div (IZR (RGB.g rgb)) 255.0 ;;
    m <- div (1.0 - g2 - k) (1.0 - k) ;;
    b2 <- div (IZR (RGB.b rgb)) 255.0 ;;
    y <- div (1.0 - b2 - k) (1.0 - k) ;;
    Some (CMYK.mk c m y k)
  else
    Some (CMYK.mk 0.0 0.0 0.0 k).

Definition cmykToRgb (cmyk : CMYK.t) : option RGB.t :=
  let r := 255.0 * (1.0 - CMYK.c cmyk) * (1.0 - CMYK.k cmyk) in
  let g := 255.0 * (1.0 - CMYK.m cmyk) * (1.0 - CMYK.k cmyk) in
  let b := 255.0 * (1.0 - CMYK.y cmyk) * (1.0 - CMYK.k cmyk) in
  Some (RGB.mk (clampInt (to_int cast_overflow (round r)) 0 255)
               (clampInt (to_int cast_overflow (round g)) 0 255)
               (clampInt (to_int cast_overflow (round b)) 0 255)).

Definition invGamma (v : R) : option R :=
  if Rleb v 0.04045 then div v 12.92
  else
    base <- div (v + 0.055) 1.055 ;;
    pow base 2.4.

Definition gammaSRGB (v : R) : option R :=
  if Rleb v 0.0031308 then Some (12.92 * v)
  else
    e <- div 1.0 2.4 ;;
    p <- pow v e ;;
    Some (1.055 * p - 0.055).

Definition rgbToXyz (rgb : RGB.t) : option XYZ.t :=
  r <- div (IZR (RGB.r rgb)) 255.0 ;;
  g <- div (IZR (RGB.g rgb)) 255.0 ;;
  b <- div (IZR (RGB.b rgb)) 255.0 ;;
  rl <- invGamma r ;;
  gl <- invGamma g ;;
  bl <- invGamma b ;;
  let X := rl * 0.4124564 + gl * 0.3575761 + bl * 0.1804375 in
  let Y := rl * 0.2126729 + gl * 0.7151522 + bl * 0.0721750 in
  let Z := rl * 0.0193339 + gl * 0.1191920 + bl * 0.9503041 in
  Some (XYZ.mk (X * 100.0) (Y * 100.0) (Z * 100.0)).

Definition xyzToRgb (xyz : XYZ.t) : option (RGB.t * bool) :=
  x <- div (XYZ.X xyz) 100.0 ;;
  y <- div (XYZ.Y xyz) 100.0 ;;
  z <- div (XYZ.Z xyz) 100.0 ;;
  let rl := x * 3.2406 + y * (-1.5372) + z * (-0.4986) in
  let gl := x * (-0.9689) + y * 1.8758 + z * 0.0415 in
  let bl := x * 0.0557 + y * (-0.2040) + z * 1.0570 in
  r <- gammaSRGB rl ;;
  g <- gammaSRGB gl ;;
  b <- gammaSRGB bl ;;
  let clipped :=
    Rltb r 0.0 || Rgtb r 1.0 || Rltb g 0.0 || Rgtb g 1.0
    || Rltb b 0.0 || Rgtb b 1.0 in
  let Ri := clampInt (to_int cast_overflow (round (r * 255.0))) 0 255 in
  let Gi := clampInt (to_int cast_overflow (round (g * 255.0))) 0 255 in
  let Bi := clampInt (to_int cast_overflow (round (b * 255.0))) 0 255 in
  Some (RGB.mk Ri Gi Bi, clipped).

Definition xyzToLab_f (t : R) : option R :=
  let thresh := 0.008856 in
  if Rgtb t thresh then Some (cbrt t)
  else
    q <- div 16.0 116.0 ;;
    Some ((7.787 * t) + q).

Definition xyzToLab (xyz : XYZ.t) : option Lab.t :=
  xr <- div (XYZ.X xyz) REF_X ;;
  yr <- div (XYZ.Y xyz) REF_Y ;;
  zr <- div (XYZ.Z xyz) REF_Z ;;
  fx <- xyzToLab_f xr ;;
  fy <- xyzToLab_f yr ;;
  fz <- xyzToLab_f zr ;;
  let L := 116.0 * fy - 16.0 in
  let a := 500.0 * (fx - fy) in
  let b := 200.0 * (fy - fz) in
  Some (Lab.mk L a b).

Definition labToXyz_invf (t : R) : option R :=
  let thresh := 0.008856 in
  if Rgtb (t * t * t) thresh then Some (t * t * t)
  else
    q <- div 16.0 116.0 ;;
    div (t - q) 7.787.

Definition labToXyz (lab : Lab.t) : option XYZ.t :=
  fy <- div (Lab.L lab + 16.0) 116.0 ;;
  a' <- div (Lab.a lab) 500.0 ;;
  let fx := a' + fy in
  b' <- div (Lab.b lab) 200.0 ;;
  let fz := fy - b' in
  xr <- labToXyz_invf fx ;;
  yr <- labToXyz_invf fy ;;
  zr <- labToXyz_invf fz ;;
  Some (XYZ.mk (xr * REF_X) (yr * REF_Y) (zr * REF_Z)).

Definition rgbToLab (rgb : RGB.t) : option Lab.t :=
  xyz <- rgbToXyz rgb ;;
  xyzToLab xyz.

Definition labToRgb (lab : Lab.t) : option (RGB.t * bool) :=
  xyz <- labToXyz lab ;;
  xyzToRgb xyz.

End Engine.

End Checked.

(** ** The RGB <-> CMYK pair in binary64

    [rgbToCmyk] and [cmykToRgb] use only operations that IEEE-754 rounds
    correctly, so they can be embedded on the doubles themselves: a
    [double] is a primitive float, [+], [-], [*], [/] round to nearest
    even and [<] is the IEEE comparison.  [std::round] and the conversion
    to [int] are computed from the exact value [m * 2^e] of the float. *)

Module Binary64.

Import PrimFloat.

Module CMYK.
Record t : Set := mk { c : float; m : float; y : float; k : float }.
End CMYK.

Local Open Scope float_scope.

(** The conversion [int -> double], exact on the range of [int]. *)
Definition of_int (z : Z) : float :=
  if (z <? 0)%Z then - of_uint63 (Uint63.of_Z (- z))
  else of_uint63 (Uint63.of_Z z).

(** [std::max({a, b, c})] keeps the first of the largest elements, found
    with [<]. *)
Definition max3 (a b c : float) : float :=
  let m := if a <? b then b else a in
  if m <? c then c else m.

(** [std::round]: a float [m * 2^e] with [e >= 0] is an integer already;
    otherwise the magnitude is [floor (m / 2^(-e) + 1/2)].  Zeros,
    infinities and NaN are returned unchanged. *)
Definition round (f : float) : float :=
  match Prim2SF f with
  | S754_finite s m e =>
      if (0 <=? e)%Z then f
      else
        let mag := Z.shiftr (Z.pos m + Z.shiftl 1 (- e - 1)) (- e) in
        if s then - of_uint63 (Uint63.of_Z mag)
        else of_uint63 (Uint63.of_Z mag)
  | _ => f
  end.

(** Truncation toward zero of a finite float. *)
Definition Ztrunc (f : float) : option Z :=
  match Prim2SF f with
  | S754_zero _ => Some 0%Z
  | S754_finite s m e =>
      let mag := if (0 <=? e)%Z then Z.shiftl (Z.pos m) e
                 else Z.shiftr (Z.pos m) (- e) in
      Some (if s then (- mag)%Z else mag)
  | _ => None
  end.

Section Engine.

(** As in the real-arithmetic embedding, the result of converting a
    double that does not fit in [int] (or is not a number) is left open. *)
Variable cast_overflow : float -> Z.

Definition to_int (d : float) : Z :=
  match Ztrunc d with
  | Some z =>
      if ((INT_MIN <=? z) && (z <=? INT_MAX))%Z then z else cast_overflow d
  | None => cast_overflow d
  end.

Definition rgbToCmyk (rgb : RGB.t) : CMYK.t :=
  let k := 1.0 - max3 (of_int (RGB.r rgb) / 255.0)
                      (of_int (RGB.g rgb) / 255.0)
                      (of_int (RGB.b rgb) / 255.0) in
  if k <? 1.0 - 1e-12 then
    let c := (1.0 - of_int (RGB.r rgb) / 255.0 - k) / (1.0 - k) in
    let m := (1.0 - of_int (RGB.g rgb) / 255.0 - k) / (1.0 - k) in
    let y := (1.0 - of_int (RGB.b rgb) / 255.0 - k) / (1.0 - k) in
    CMYK.mk c m y k
  else
    CMYK.mk 0.0 0.0 0.0 k.

Definition cmykToRgb (cmyk : CMYK.t) : RGB.t :=
  let r := 255.0 * (1.0 - CMYK.c cmyk) * (1.0 - CMYK.k cmyk) in
  let g := 255.0 * (1.0 - CMYK.m cmyk) * (1.0 - CMYK.k cmyk) in
  let b := 255.0 * (1.0 - CMYK.y cmyk) * (1.0 - CMYK.k cmyk) in
  RGB.mk (clampInt (to_int (round r)) 0 255)
         (clampInt (to_int (round g)) 0 255)
         (clampInt (to_int (round b)) 0 255).

End Engine.

End Binary64.

(** ** The window

    [MainWindow] owns ten sliders and ten line edits, a preview swatch
    and a warning label, and calls the engine from its slots.  The
    widgets are Qt's; what the slots rely on is kept here:

    - [QSlider::setValue] bounds its argument to the range given to
      [setRange], stores it, and emits [valueChanged] when the stored
      value changes;
    - [QLineEdit::setText] stores the text and emits no
      [editingFinished];
    - every line edit carries a [QIntValidator], every text written is
      [QString::number] of an [int], and every text read goes through
      [toInt] or [toDouble]: a line edit is modelled by the integer it
      shows.

    Each [valueChanged] is connected to a lambda that calls the slot of
    its group unless [internalUpdate] is set.  The field [reentered]
    records that such a call would have happened inside a running slot;
    [no_reentrancy] below shows that it never does, so that the slots are
    the straight-line functions written here. *)

Inductive widget : Set :=
  | sR | sG | sB | eR | eG | eB
  | sL | sa | sb | eL | ea | eb
  | sC | sM | sY | sK | eC | eM | eY | eK.

Definition widget_id (w : widget) : nat :=
  match w with
  | sR => 0 | sG => 1 | sB => 2 | eR => 3 | eG => 4 | eB => 5
  | sL => 6 | sa => 7 | sb => 8 | eL => 9 | ea => 10 | eb => 11
  | sC => 12 | sM => 13 | sY => 14 | sK => 15
  | eC => 16 | eM => 17 | eY => 18 | eK => 19
  end%nat.

Definition widget_eqb (w w' : widget) : bool :=
  Nat.eqb (widget_id w) (widget_id w').

(** The ranges given to [setRange] in the constructor; [None] for a line
    edit. *)
Definition slider_range (w : widget) : option (Z * Z) :=
  match w with
  | sR | sG | sB => Some (0, 255)
  | sL => Some (0, 100)
  | sa | sb => Some (-128, 127)
  | sC | sM | sY | sK => Some (0, 100)
  | _ => None
  end%Z.

Record Window : Type := mkWindow {
  value : widget -> Z;
  preview : RGB.t;
  warning : bool;
  internalUpdate : bool;
  reentered : bool
}.

Definition setInternalUpdate (v : bool) (st : Window) : Window :=
  mkWindow (value st) (preview st) (warning st) v (reentered st).

Definition setPreview (rgb : RGB.t) (st : Window) : Window :=
  mkWindow (value st) rgb (warning st) (internalUpdate st) (reentered st).

Definition setWarning (v : bool) (st : Window) : Window :=
  mkWindow (value st) (preview st) v (internalUpdate st) (reentered st).

Definition store (w : widget) (v : Z) (f : widget -> Z) : widget -> Z :=
  fun w' => if widget_eqb w' w then v else f w'.

(** [QSlider::setValue]. *)
Definition setValue (w : widget) (v : Z) (st : Window) : Window :=
  let v' := match slider_range w with
            | Some (lo, hi) => clampInt v lo hi
            | None => v
            end in
  mkWindow (store w v' (value st)) (preview st) (warning st)
           (internalUpdate st)
           (reentered st
            || (negb (internalUpdate st) && negb (v' =? value st w)%Z)).

(** [QLineEdit::setText (QString::number n)]. *)
Definition setText (w : widget) (n : Z) (st : Window) : Window :=
  mkWindow (store w n (value st)) (preview st) (warning st)
           (internalUpdate st) (reentered st).

Notation "st |> f" := (f st) (at level 45, left associativity, only parsing).

Section Slots.

Variable cast_overflow : R -> Z.

(** [int(std::round(x))]. *)
Definition round_int (x : R) : Z := to_int cast_overflow (round x).

Definition setFromRGB (r g b : Z) (st : Window) : Window :=
  let rgb := RGB.mk r g b in
  let cmyk := rgbToCmyk rgb in
  let lab := rgbToLab rgb in
  st |> setPreview rgb
     |> setInternalUpdate true
     |> setValue sC (round_int (CMYK.c cmyk * 100.0))
     |> setValue sM (round_int (CMYK.m cmyk * 100.0))
     |> setValue sY (round_int (CMYK.y cmyk * 100.0))
     |> setValue sK (round_int (CMYK.k cmyk * 100.0))
     |> setText eC (round_int (CMYK.c cmyk * 100))
     |> setText eM (round_int (CMYK.m cmyk * 100))
     |> setText eY (round_int (CMYK.y cmyk * 100))
     |> setText eK (round_int (CMYK.k cmyk * 100))
     |> setValue sL (round_int (Lab.L lab))
     |> setValue sa (round_int (Lab.a lab))
     |> setValue sb (round_int (Lab.b lab))
     |> setText eL (round_int (Lab.L lab))
     |> setText ea (round_int (Lab.a lab))
     |> setText eb (round_int (Lab.b lab))
     |> setInternalUpdate false
     |> setWarning false.

Definition setFromLab (L a_ b_ : R) (st : Window) : Window :=
  let lab := Lab.mk L a_ b_ in
  let '(rgb, clipped) := labToRgb cast_overflow lab in
  let cmyk := rgbToCmyk rgb in
  st |> setPreview rgb
     |> setInternalUpdate true
     |> setValue sR (RGB.r rgb)
     |> setValue sG (RGB.g rgb)
     |> setValue sB (RGB.b rgb)
     |> setText eR (RGB.r rgb)
     |> setText eG (RGB.g rgb)
     |> setText eB (RGB.b rgb)
     |> setValue sC (round_int (CMYK.c cmyk * 100.0))
     |> setValue sM (round_int (CMYK.m cmyk * 100.0))
     |> setValue sY (round_int (CMYK.y cmyk * 100.0))
     |> setValue sK (round_int (CMYK.k cmyk * 100.0))
     |> setText eC (round_int (CMYK.c cmyk * 100))
     |> setText eM (round_int (CMYK.m cmyk * 100))
     |> setText eY (round_int (CMYK.y cmyk * 100))
     |> setText eK (round_int (CMYK.k cmyk * 100))
     |> setInternalUpdate false
     |> setWarning clipped.

Definition setFromCmyk (c m y k : R) (st : Window) : Window :=
  let cmyk := CMYK.mk c m y k in
  let rgb := cmykToRgb cast_overflow cmyk in
  let lab := rgbToLab rgb in
  st |> setPreview rgb
     |> setInternalUpdate true
     |> setValue sR (RGB.r rgb)
     |> setValue sG (RGB.g rgb)
     |> setValue sB (RGB.b rgb)
     |> setText eR (RGB.r rgb)
     |> setText eG (RGB.g rgb)
     |> setText eB (RGB.b rgb)
     |> setValue sL (round_int (Lab.L lab))
     |> setValue sa (round_int (Lab.a lab))
     |> setValue sb (round_int (Lab.b lab))
     |> setText eL (round_int (Lab.L lab))
     |> setText ea (round_int (Lab.a lab))
     |> setText eb (round_int (Lab.b lab))
     |> setInternalUpdate false
     |> setWarning false.

Definition onRgbSliderChanged (st : Window) : Window :=
  let r := value st sR in
  let g := value st sG in
  let b := value st sB in
  st |> setInternalUpdate true
     |> setText eR r |> setText eG g |> setText eB b
     |> setInternalUpdate false
     |> setFromRGB r g b.

Definition onRgbEditChanged (st : Window) : Window :=
  let r := value st eR in
  let g := value st eG in
  let b := value st eB in
  st |> setInternalUpdate true
     |> setValue sR r |> setValue sG g |> setValue sB b
     |> setInternalUpdate false
     |> setFromRGB r g b.

Definition onLabSliderChanged (st : Window) : Window :=
  let L := IZR (value st sL) in
  let a := IZR (value st sa) in
  let b := IZR (value st sb) in
  st |> setInternalUpdate true
     |> setText eL (round_int L)
     |> setText ea (round_int a)
     |> setText eb (round_int b)
     |> setInternalUpdate false
     |> setFromLab L a b.

Definition onLabEditChanged (st : Window) : Window :=
  let L := IZR (value st eL) in
  let a := IZR (value st ea) in
  let b := IZR (value st eb) in
  st |> setInternalUpdate true
     |> setValue sL (round_int L)
     |> setValue sa (round_int a)
     |> setValue sb (round_int b)
     |> setInternalUpdate false
     |> setFromLab L a b.

Definition onCmykSliderChanged (st : Window) : Window :=
  let c := IZR (value st sC) / 100.0 in
  let m := IZR (value st sM) / 100.0 in
  let y := IZR (value st sY) / 100.0 in
  let k := IZR (value st sK) / 100.0 in
  st |> setInternalUpdate true
     |> setText eC (value st sC)
     |> setText eM (value st sM)
     |> setText eY (value st sY)
     |> setText eK (value st sK)
     |> setInternalUpdate false
     |> setFromCmyk c m y k.

Definition onCmykEditChanged (st : Window) : Window :=
  let c := value st eC in
  let m := value st eM in
  let y := value st eY in
  let k := value st eK in
  st |> setInternalUpdate true
     |> setValue sC c |> setValue sM m |> setValue sY y |> setValue sK k
     |> setInternalUpdate false
     |> setFromCmyk (IZR c / 100.0) (IZR m / 100.0)
                    (IZR y / 100.0) (IZR k / 100.0).

(** [col] is what [QColorDialog::getColor] returned: [None] when the
    colour is not valid (the dialog was cancelled). *)
Definition onOpenColorDialog (col : option RGB.t) (st : Window) : Window :=
  match col with
  | None => st
  | Some (RGB.mk r g b) =>
      st |> setInternalUpdate true
         |> setValue sR r |> setValue sG g |> setValue sB b
         |> setText eR r |> setText eG g |> setText eB b
         |> setInternalUpdate false
         |> setFromRGB r g b
  end.

End Slots.

(** No signal has re-entered a slot and none can: the state between two
    user actions. *)
Definition idle (st : Window) : Prop :=
  internalUpdate st = false /\ reentered st = false.

(** ** Predicates and values used in the statements *)

(** A colour whose three channels are bytes. *)
Definition valid_rgb (rgb : RGB.t) : Prop :=
  (0 <= RGB.r rgb <= 255)%Z /\ (0 <= RGB.g rgb <= 255)%Z
  /\ (0 <= RGB.b rgb <= 255)%Z.

Definition in_byte_range (rgb : RGB.t) : Prop :=
  (0 <= RGB.r rgb <= 255)%Z /\ (0 <= RGB.g rgb <= 255)%Z
  /\ (0 <= RGB.b rgb <= 255)%Z.

Definition is_byte (i : Z) : Prop := (0 <= i <= 255)%Z.

(** A CMYK value whose four components are fractions. *)
Definition valid_cmyk (cmyk : CMYK.t) : Prop :=
  0 <= CMYK.c cmyk <= 1 /\ 0 <= CMYK.m cmyk <= 1
  /\ 0 <= CMYK.y cmyk <= 1 /\ 0 <= CMYK.k cmyk <= 1.

(** The largest channel of a colour. *)
Definition max_channel (rgb : RGB.t) : Z :=
  Z.max (Z.max (RGB.r rgb) (RGB.g rgb)) (RGB.b rgb).

(** A gamma-encoded channel lies outside [[0,1]]. *)
Definition out_of_unit (v : R) : Prop := v < 0 \/ 1 < v.

(** What [xyzToRgb] makes of a gamma-encoded channel [v], as long as
    [255 * v] is in the range of [int]: [255] from 1 upwards, [0] from 0
    downwards, and in between the nearest integer to [255 * v].  The
    margin [0.0000001] on the one half is for the rounding of the
    product on the doubles. *)
Definition clamped_byte (v : R) (n : Z) : Prop :=
  (1 <= v -> v * 255.0 <= IZR INT_MAX -> n = 255%Z)
  /\ (v <= 0 -> IZR INT_MIN <= v * 255.0 -> n = 0%Z)
  /\ (0 <= v <= 1 -> - 0.5000001 <= IZR n - v * 255.0 <= 0.5000001).

(** An XYZ value so bright that [255] times its red channel is beyond
    the range of [int]. *)
Definition xyz_bright : XYZ.t := XYZ.mk 1e30 0 0.

(** Two values differ by [d] at most. *)
Definition within (d x y : R) : Prop := - d <= x - y <= d.

(** XYZ and Lab values with every component in [[-1000, 1000]], ten
    times the nominal ranges: there the doubles of the source are far
    from overflow. *)
Definition xyz_bounded (xyz : XYZ.t) : Prop :=
  -1000 <= XYZ.X xyz <= 1000 /\ -1000 <= XYZ.Y xyz <= 1000
  /\ -1000 <= XYZ.Z xyz <= 1000.

Definition lab_bounded (lab : Lab.t) : Prop :=
  -1000 <= Lab.L lab <= 1000 /\ -1000 <= Lab.a lab <= 1000
  /\ -1000 <= Lab.b lab <= 1000.

(** Componentwise order on XYZ. *)
Definition xyz_le (p q : XYZ.t) : Prop :=
  XYZ.X p <= XYZ.X q /\ XYZ.Y p <= XYZ.Y q /\ XYZ.Z p <= XYZ.Z q.

(** The largest value the linear branch of [f] can take. *)
Definition f_linear_max : R := 7.787 * 0.008856 + 16.0 / 116.0.

(** The two branches of [f] and of [invf] do not meet: [f_linear_max]
    cubed is below the threshold [0.008856].  [outside_gap t] says that
    [t] is not strictly between [f_linear_max] and the cube root of the
    threshold. *)
Definition outside_gap (t : R) : Prop :=
  0.008856 < t * t * t \/ t <= f_linear_max.

(** A lightness whose [fy] falls in the gap: [invf] takes the linear
    branch, [f] then takes the cube-root branch and returns more. *)
Definition lab_in_gap : Lab.t := Lab.mk 7.99957 0 0.

(** One platform's answer for an out-of-range conversion to [int]:
    x86-64 returns the "integer indefinite" value [INT_MIN]. *)
Definition x86_cast_overflow : R -> Z := fun _ => INT_MIN.
Definition x86_cast_overflow_b64 : PrimFloat.float -> Z := fun _ => INT_MIN.

(** A float in [[0,1]], by the IEEE comparisons. *)
Definition unit_float (f : PrimFloat.float) : bool :=
  (PrimFloat.leb 0.0 f && PrimFloat.leb f 1.0)%float.

(** A slider and its line edit show the same integer, inside
    [0 .. 100], and that integer is the nearest one to [x]; the margin
    [0.0000001] on the one half is for the rounding on the doubles. *)
Definition shown_rounded (st : Window) (slider edit : widget) (x : R)
  : Prop :=
  value st edit = value st slider
  /\ (0 <= value st slider <= 100)%Z
  /\ within 0.5000001 (IZR (value st slider)) x.

(** The RGB sliders, the RGB line edits and the preview show the same
    three bytes. *)
Definition rgb_shown (st : Window) : Prop :=
  (value st sR = RGB.r (preview st) /\ value st eR = RGB.r (preview st))
  /\ (value st sG = RGB.g (preview st) /\ value st eG = RGB.g (preview st))
  /\ (value st sB = RGB.b (preview st) /\ value st eB = RGB.b (preview st))
  /\ in_byte_range (preview st).

(** The window before the constructor shows the default colour: every
    slider at Qt's initial value 0, every line edit empty ([toInt] reads
    0), no warning. *)
Definition blank_window : Window :=
  mkWindow (fun _ => 0%Z) (RGB.mk 0 0 0) false false false.

(** ** Certificate for the sRGB transfer curve

    [pow_inv y] is the inverse of the power branch of [gammaSRGB]; on
    [v > 0.04045] it is the power branch of [invGamma].  The table
    holds [floor (10^9 * pow_inv (j / 510))] for [j = -1 .. 511], that
    is at every channel value ([j] even) and half-way between two
    neighbours ([j] odd).  Nothing is taken on trust: [entry_ok] checks
    each entry in exact rational arithmetic. *)

Definition pow_inv (y : R) : R := pow ((y + 0.055) / 1.055) 2.4.

Definition pow_table : list Z :=
  [764235; 833805; 906935; 983676; 1064078; 1148187; 1236053; 1327720;
   1423236; 1522643; 1625988; 1733312; 1844659; 1960070; 2079587; 2203251;
   2331101; 2463178; 2599520; 2740165; 2885152; 3034518; 3188300; 3346535;
   3509259; 3676507; 3848314; 4024717; 4205748; 4391442; 4581832; 4776953;
   4976837; 5181516; 5391024; 5605391; 5824650; 6048833; 6277969; 6512090;
   6751227; 6995410; 7244668; 7499032; 7758530; 8023192; 8293048; 8568125;
   8848452; 9134058; 9424970; 9721217; 10022825; 10329823; 10642236;
   10960094; 11283421; 11612245; 11946592; 12286488; 12631959; 12983032;
   13339731; 13702083; 14070112; 14443843; 14823302; 15208514; 15599503;
   15996293; 16398909; 16807375; 17221716; 17641954; 18068114; 18500220;
   18938294; 19382360; 19832442; 20288563; 20750744; 21219010; 21693382;
   22173884; 22660538; 23153366; 23652390; 24157632; 24669114; 25186859;
   25710888; 26241221; 26777882; 27320891; 27870270; 28426039; 28988220;
   29556834; 30131901; 30713443; 31301480; 31896033; 32497121; 33104766;
   33718988; 34339806; 34967242; 35601314; 36242044; 36889450; 37543552;
   38204371; 38871925; 39546235; 40227319; 40915196; 41609887; 42311410;
   43019784; 43735029; 44457162; 45186204; 45922172; 46665086; 47414964;
   48171824; 48935685; 49706565; 50484484; 51269458; 52061506; 52860647;
   53666897; 54480276; 55300801; 56128490; 56963360; 57805430; 58654716;
   59511238; 60375011; 61246054; 62124383; 63010017; 63902972; 64803266;
   65710916; 66625938; 67548350; 68478169; 69415412; 70360095; 71312236;
   72271850; 73238955; 74213568; 75195704; 76185381; 77182615; 78187421;
   79199818; 80219820; 81247444; 82282707; 83325624; 84376211; 85434485;
   86500462; 87574156; 88655586; 89744765; 90841711; 91946438; 93058962;
   94179300; 95307466; 96443477; 97587347; 98739092; 99898728; 101066270;
   102241733; 103425132; 104616484; 105815802; 107023102; 108238400;
   109461710; 110693048; 111932427; 113179864; 114435373; 115698969;
   116970667; 118250482; 119538427; 120834519; 122138772; 123451199;
   124771817; 126100639; 127437680; 128782954; 130136476; 131498260;
   132868321; 134246673; 135633329; 137028305; 138431615; 139843272;
   141263291; 142691686; 144128470; 145573659; 147027266; 148489305;
   149959789; 151438734; 152926151; 154422057; 155926463; 157439385;
   158960835; 160490827; 162029375; 163576493; 165132194; 166696492;
   168269400; 169850931; 171441100; 173039920; 174647403; 176263564;
   177888415; 179521971; 181164244; 182815247; 184474994; 186143498;
   187820772; 189506829; 191201682; 192905345; 194617830; 196339150;
   198069319; 199808349; 201556253; 203313045; 205078736; 206853340;
   208636870; 210429338; 212230757; 214041140; 215860500; 217688848;
   219526199; 221372564; 223227957; 225092389; 226965873; 228848422;
   230740048; 232640764; 234550582; 236469514; 238397573; 240334772;
   242281122; 244236636; 246201326; 248175205; 250158284; 252150576;
   254152094; 256162848; 258182852; 260212118; 262250657; 264298482;
   266355604; 268422037; 270497791; 272582878; 274677312; 276781103;
   278894263; 281016805; 283148740; 285290080; 287440837; 289601023;
   291770649; 293949728; 296138270; 298336288; 300543794; 302760798;
   304987314; 307223351; 309468922; 311724039; 313988713; 316262955;
   318546778; 320840192; 323143209; 325455840; 327778098; 330109992;
   332451536; 334802739; 337163615; 339534172; 341914424; 344304382;
   346704056; 349113458; 351532599; 353961491; 356400144; 358848570;
   361306779; 363774784; 366252595; 368740223; 371237680; 373744976;
   376262122; 378789130; 381326011; 383872775; 386429433; 388995997;
   391572477; 394158885; 396755230; 399361525; 401977779; 404604005;
   407240211; 409886411; 412542613; 415208829; 417885070; 420571347;
   423267669; 425974049; 428690496; 431417021; 434153636; 436900349;
   439657173; 442424118; 445201194; 447988412; 450785782; 453593316;
   456411023; 459238914; 462076999; 464925290; 467783796; 470652527;
   473531496; 476420711; 479320183; 482229922; 485149940; 488080245;
   491020849; 493971762; 496932995; 499904556; 502886458; 505878709;
   508881320; 511894302; 514917665; 517951418; 520995573; 524050138;
   527115125; 530190544; 533276404; 536372715; 539479489; 542596734;
   545724461; 548862680; 552011401; 555170634; 558340389; 561520676;
   564711505; 567912886; 571124829; 574347344; 577580440; 580824128;
   584078417; 587343318; 590618840; 593904994; 597201788; 600509233;
   603827338; 607156114; 610495570; 613845716; 617206562; 620578117;
   623960391; 627353394; 630757136; 634171626; 637596873; 641032889;
   644479681; 647937261; 651405637; 654884819; 658374817; 661875640;
   665387298; 668909800; 672443156; 675987376; 679542469; 683108445;
   686685312; 690273081; 693871761; 697481361; 701101891; 704733361;
   708375779; 712029156; 715693500; 719368821; 723055128; 726752431;
   730460740; 734180062; 737910408; 741651787; 745404209; 749167682;
   752942216; 756727821; 760524504; 764332277; 768151147; 771981124;
   775822218; 779674437; 783537791; 787412289; 791297940; 795194753;
   799102738; 803021903; 806952257; 810893811; 814846572; 818810550;
   822785754; 826772193; 830769876; 834778813; 838799011; 842830481;
   846873231; 850927270; 854992608; 859069252; 863157213; 867256499;
   871367119; 875489082; 879622396; 883767072; 887923117; 892090541;
   896269353; 900459561; 904661174; 908874201; 913098651; 917334533;
   921581856; 925840628; 930110858; 934392555; 938685728; 942990385;
   947306536; 951634189; 955973353; 960324036; 964686247; 969059996;
   973445290; 977842138; 982250550; 986670533; 991102097; 995545249;
   1000000000; 1004466356]%Z.

Definition pow_entry (j : Z) : Z := nth (Z.to_nat (j + 1)) pow_table 0%Z.
Definition pow_lo (j : Z) : Q := (inject_Z (pow_entry j) / 1000000000)%Q.
Definition pow_hi (j : Z) : Q := (inject_Z (pow_entry j + 1) / 1000000000)%Q.

Fixpoint Qpown (q : Q) (n : nat) : Q :=
  match n with
  | O => 1%Q
  | S n' => (q * Qpown q n')%Q
  end.

Definition Qlt_bool (x y : Q) : bool := negb (Qle_bool y x).

(** The base [(y + 0.055) / 1.055] of the power at [y = j / 510]. *)
Definition pow_base (j : Z) : Q :=
  Qred ((inject_Z j / 510 + 0.055) / 1.055)%Q.

(** [pow_lo j ^ 5 <= pow_base j ^ 12 <= pow_hi j ^ 5], which says that
    [pow_lo j <= pow_base j ^ 2.4 <= pow_hi j]. *)
Definition entry_ok (j : Z) : bool :=
  Qle_bool 0 (pow_lo j)
  && Qlt_bool 0 (pow_base j)
  && Qle_bool (Qpown (pow_lo j) 5) (Qpown (pow_base j) 12)
  && Qle_bool (Qpown (pow_base j) 12) (Qpown (pow_hi j) 5).

Definition zrange (lo : Z) (n : nat) : list Z :=
  map (fun k => (lo + Z.of_nat k)%Z) (seq 0 n).

Definition table_ok : bool := forallb entry_ok (zrange (-1) 513).

(** The product of the two matrices of [xyzToRgb] and [rgbToXyz]: the
    linear channels that come back are [round_trip_matrix] applied to the
    linear channels that went in.  It is close to, but not, the identity. *)
Definition P11 : Q := 1.00004554542%Q.
Definition P12 : Q := 0.00000001662%Q.
Definition P13 : Q := (-0.00004327176)%Q.
Definition P21 : Q := 0.00010517671%Q.
Definition P22 : Q := 0.99997348147%Q.
Definition P23 : Q := (-0.0000024086)%Q.
Definition P31 : Q := 0.00002448218%Q.
Definition P32 : Q := 0.00001188397%Q.
Definition P33 : Q := 0.99979810245%Q.

(** A rational enclosure of [invGamma (i / 255)]. *)
Definition lin_enclosure (i : Z) : Q * Q :=
  if (i <=? 10)%Z then
    let v := (inject_Z i / 255 / 12.92)%Q in (v, v)
  else (pow_lo (2 * i), pow_hi (2 * i)).

(** [channel_ok a dlo dhi i]: every linear value [x] between
    [a * invGamma (i/255) + dlo] and [a * invGamma (i/255) + dhi] has
    [(i - 1/2) / 255 < gammaSRGB x < (i + 1/2) / 255].  The first line
    covers the linear branch of [gammaSRGB], the second the power branch. *)
Definition channel_ok (a dlo dhi : Q) (i : Z) : bool :=
  let '(l, h) := lin_enclosure i in
  let xlo := (a * l + dlo)%Q in
  let xhi := (a * h + dhi)%Q in
  let ylo := (inject_Z (2 * i - 1) / 510)%Q in
  let yhi := (inject_Z (2 * i + 1) / 510)%Q in
  (Qlt_bool 0.0031308 xlo
   || (Qlt_bool ylo (12.92 * xlo)
       && (Qlt_bool (12.92 * xhi) yhi || Qlt_bool (12.92 * 0.0031308) yhi)))
  && (Qle_bool xhi 0.0031308
      || ((Qlt_bool (pow_hi (2 * i - 1)) xlo
           || Qle_bool (pow_hi (2 * i - 1)) 0.0031308)
          && Qlt_bool xhi (pow_lo (2 * i + 1)))).

Definition round_trip_ok : bool :=
  forallb (fun i => channel_ok P11 P13 P12 i
                    && channel_ok P22 P23 P21 i
                    && channel_ok P33 0 (P31 + P32) i)
          (zrange 0 256).

(** ** Exhaustive checks for the binary64 embedding

    On bytes, the result of [rgbToCmyk] for one channel depends only on
    that channel [x] and on the largest channel [mx], so the 2^24 colours
    reduce to 256 * 256 pairs, which are enumerated. *)

(** [rgb.r / 255.0] for a byte. *)
Definition byte_quot (i : Z) : PrimFloat.float :=
  PrimFloat.div (Binary64.of_int i) 255.0%float.

(** The component [c] (or [m], [y]) of a channel [x] under the largest
    channel [mx], and the component [k]. *)
Definition cmyk_k (mx : Z) : PrimFloat.float :=
  (1.0 - byte_quot mx)%float.

Definition cmyk_guard (mx : Z) : bool :=
  (cmyk_k mx <? 1.0 - 1e-12)%float.

Definition cmyk_c (x mx : Z) : PrimFloat.float :=
  if cmyk_guard mx then
    ((1.0 - byte_quot x - cmyk_k mx) / (1.0 - cmyk_k mx))%float
  else 0.0%float.

(** The double [cmykToRgb] rounds for that channel. *)
Definition cmyk_back (x mx : Z) : PrimFloat.float :=
  (255.0 * (1.0 - cmyk_c x mx) * (1.0 - cmyk_k mx))%float.

(** The order of the quotients is the order of the bytes. *)
Definition quot_order_ok : bool :=
  (fun l : list (Z * PrimFloat.float) =>
     forallb (fun a =>
       forallb (fun b =>
         Bool.eqb (PrimFloat.ltb (snd a) (snd b)) (fst a <? fst b)%Z) l) l)
    (map (fun i => (i, byte_quot i)) (zrange 0 256)).

Definition pair_ok (x mx : Z) : bool :=
  (mx <? x)%Z
  || (match Binary64.Ztrunc (Binary64.round (cmyk_back x mx)) with
      | Some z => (z =? x)%Z
      | None => false
      end
      && unit_float (cmyk_c x mx)).

Definition byte_ok (mx : Z) : bool :=
  unit_float (cmyk_k mx)
  && PrimFloat.Leibniz.eqb (cmyk_c mx mx) 0.0%float
  && (cmyk_guard mx || PrimFloat.Leibniz.eqb (cmyk_k mx) 1.0%float)
  && Bool.eqb (cmyk_guard mx) (0 <? mx)%Z
  && forallb (fun x => pair_ok x mx) (zrange 0 256).

Definition bytes_ok : bool := forallb byte_ok (zrange 0 256).

(** * Properties of the real-arithmetic embedding *)

(** ** The primitive operations *)

Lemma Rltb_true (x y : R) : Rltb x y = true <-> x < y.
Proof. unfold Rltb; destruct (Rlt_dec x y); split; intros; try easy. Qed.

Lemma Rltb_false (x y : R) : Rltb x y = false <-> y <= x.
Proof.
  unfold Rltb; destruct (Rlt_dec x y); split; intros; try easy; lra.
Qed.

Lemma Rleb_true (x y : R) : Rleb x y = true <-> x <= y.
Proof. unfold Rleb; destruct (Rle_dec x y); split; intros; try easy. Qed.

Lemma Rleb_false (x y : R) : Rleb x y = false <-> y < x.
Proof.
  unfold Rleb; destruct (Rle_dec x y); split; intros; try easy; lra.
Qed.

Lemma Rgtb_true (x y : R) : Rgtb x y = true <-> y < x.
Proof. apply Rltb_true. Qed.

Lemma Rgtb_false (x y : R) : Rgtb x y = false <-> x <= y.
Proof. apply Rltb_false. Qed.

(** Case analysis on a comparison, leaving the order fact in the context. *)
Ltac cmp_cases :=
  match goal with
  | |- context [Rltb ?x ?y] =>
      let H := fresh "Hcmp" in
      destruct (Rltb x y) eqn:H;
      [apply Rltb_true in H | apply Rltb_false in H]
  | |- context [Rgtb ?x ?y] =>
      let H := fresh "Hcmp" in
      destruct (Rgtb x y) eqn:H;
      [apply Rgtb_true in H | apply Rgtb_false in H]
  | |- context [Rleb ?x ?y] =>
      let H := fresh "Hcmp" in
      destruct (Rleb x y) eqn:H;
      [apply Rleb_true in H | apply Rleb_false in H]
  end.

(** Decimal literals are kept as the source writes them; [rdec] turns them
    into quotients of integers for [field]. *)
Ltac rdec :=
  cbv [Q2R Qnum Qden] in *;
  repeat match goal with
  | |- context [Z.pow_pos ?a ?b] =>
      let t := eval vm_compute in (Z.pow_pos a b) in
      change (Z.pow_pos a b) with t
  end.

Lemma clampInt_range (v : Z) : (0 <= clampInt v 0 255 <= 255)%Z.
Proof. unfold clampInt; lia. Qed.

Lemma clampInt_id (v : Z) : (0 <= v <= 255)%Z -> clampInt v 0 255 = v.
Proof. unfold clampInt; lia. Qed.

(** [std::round] sends every real within one half of an integer to that
    integer. *)
Lemma round_near (x : R) (z : Z) :
  IZR z - / 2 < x < IZR z + / 2 -> round x = IZR z.
Proof.
  intros [Hlo Hhi]; unfold round; cmp_cases; f_equal.
  - apply Zfloor_eq; lra.
  - apply Zceil_eq; lra.
Qed.

Lemma round_IZR (z : Z) : round (IZR z) = IZR z.
Proof. apply round_near; lra. Qed.

Lemma Ztrunc_IZR (z : Z) : Ztrunc (IZR z) = z.
Proof.
  unfold Ztrunc; cmp_cases.
  - apply ZfloorZ.
  - apply Zceil_eq; lra.
Qed.

(** Inside the range of [int] the conversion is exact, whatever the
    platform does outside of it. *)
Lemma to_int_IZR (ov : R -> Z) (z : Z) :
  (INT_MIN <= z <= INT_MAX)%Z -> to_int ov (IZR z) = z.
Proof.
  intros Hz; unfold to_int; rewrite Ztrunc_IZR.
  destruct (Z.leb_spec INT_MIN z), (Z.leb_spec z INT_MAX); simpl; lia.
Qed.

Lemma channel_near (ov : R -> Z) (x : R) (z : Z) :
  (0 <= z <= 255)%Z -> IZR z - / 2 < x < IZR z + / 2 ->
  clampInt (to_int ov (round x)) 0 255 = z.
Proof.
  intros Hz Hx; rewrite (round_near x z Hx), to_int_IZR.
  - now apply clampInt_id.
  - unfold INT_MIN, INT_MAX; lia.
Qed.

Lemma max3_IZR (r g b : Z) :
  max3 (IZR r / 255.0) (IZR g / 255.0) (IZR b / 255.0)
  = IZR (Z.max (Z.max r g) b) / 255.0.
Proof.
  unfold max3.
  assert (H : forall p q : Z, Rmax (IZR p / 255.0) (IZR q / 255.0)
                              = IZR (Z.max p q) / 255.0).
  { intros p q; destruct (Z.max_spec p q) as [[Hlt ->] | [Hle ->]].
    - apply Rmax_right. apply IZR_lt in Hlt. lra.
    - apply Rmax_left. apply IZR_le in Hle. lra. }
  now rewrite !H.
Qed.

(** ** RGB <-> CMYK over the reals *)

Lemma rgbToCmyk_k (rgb : RGB.t) :
  CMYK.k (rgbToCmyk rgb) = 1 - IZR (max_channel rgb) / 255.
Proof.
  unfold rgbToCmyk; rewrite max3_IZR; fold (max_channel rgb).
  cmp_cases; simpl; lra.
Qed.

(** The guard [k < 1.0 - 1e-12] holds exactly when some channel is
    positive. *)
Lemma rgbToCmyk_guard (rgb : RGB.t) :
  valid_rgb rgb ->
  Rltb (1.0 - IZR (max_channel rgb) / 255.0) (1.0 - 1e-12) = true
  <-> (0 < max_channel rgb)%Z.
Proof.
  intros (Hr & Hg & Hb); rewrite Rltb_true; split.
  - intros H. apply lt_IZR.
    destruct (Z_lt_le_dec 0 (max_channel rgb)) as [Hlt | Hle].
    + now apply IZR_lt.
    + apply IZR_le in Hle. lra.
  - intros H. assert (1 <= max_channel rgb)%Z as H1 by lia.
    apply IZR_le in H1. lra.
Qed.

(** The value [255 * (1 - c) * (1 - k)] that [cmykToRgb] rounds is the
    original channel. *)
Lemma cmyk_channel_exact (x mx : Z) :
  (0 <= x <= mx)%Z ->
  let k := 1.0 - IZR mx / 255.0 in
  let c := if Rltb k (1.0 - 1e-12)
           then (1.0 - IZR x / 255.0 - k) / (1.0 - k) else 0.0 in
  255.0 * (1.0 - c) * (1.0 - k) = IZR x.
Proof.
  intros Hx k c; subst c; cmp_cases.
  - subst k; rdec; field; lra.
  - assert (Hmx : (mx < 1)%Z).
    { apply lt_IZR. subst k. lra. }
    assert (mx = 0%Z) by lia; assert (x = 0%Z) by lia; subst; subst k; lra.
Qed.

Lemma cmykToRgb_rgbToCmyk_real (ov : R -> Z) (rgb : RGB.t) :
  valid_rgb rgb -> cmykToRgb ov (rgbToCmyk rgb) = rgb.
Proof.
  intros (Hr & Hg & Hb); destruct rgb as [r g b]; simpl in *.
  pose proof (cmyk_channel_exact r (max_channel (RGB.mk r g b))) as Er.
  pose proof (cmyk_channel_exact g (max_channel (RGB.mk r g b))) as Eg.
  pose proof (cmyk_channel_exact b (max_channel (RGB.mk r g b))) as Eb.
  unfold max_channel in Er, Eg, Eb; simpl in Er, Eg, Eb.
  unfold cmykToRgb, rgbToCmyk; rewrite max3_IZR; simpl.
  destruct (Rltb _ _); simpl; simpl in Er, Eg, Eb;
    (f_equal; [rewrite Er by lia | rewrite Eg by lia | rewrite Eb by lia]);
    rewrite round_IZR, to_int_IZR, clampInt_id;
    unfold INT_MIN, INT_MAX; try lia; reflexivity.
Qed.

Lemma rgbToCmyk_range_real (rgb : RGB.t) :
  valid_rgb rgb ->
  let cmyk := rgbToCmyk rgb in
  0 <= CMYK.c cmyk <= 1 /\ 0 <= CMYK.m cmyk <= 1
  /\ 0 <= CMYK.y cmyk <= 1 /\ 0 <= CMYK.k cmyk <= 1.
Proof.
  intros (Hr & Hg & Hb); destruct rgb as [r g b]; simpl in *.
  unfold rgbToCmyk; rewrite max3_IZR; simpl.
  set (mx := Z.max (Z.max r g) b).
  assert (Hmx : (0 <= mx <= 255)%Z) by (subst mx; lia).
  assert (Hrm : (r <= mx)%Z) by (subst mx; lia).
  assert (Hgm : (g <= mx)%Z) by (subst mx; lia).
  assert (Hbm : (b <= mx)%Z) by (subst mx; lia).
  destruct Hmx as [Hmx0 Hmx1].
  apply IZR_le in Hmx0, Hmx1, Hrm, Hgm, Hbm.
  destruct Hr as [Hr0 _], Hg as [Hg0 _], Hb as [Hb0 _].
  apply IZR_le in Hr0, Hg0, Hb0.
  assert (Hq : forall x : R, 0 <= x <= IZR mx -> 0 < IZR mx ->
     0 <= (1.0 - x / 255.0 - (1.0 - IZR mx / 255.0))
          / (1.0 - (1.0 - IZR mx / 255.0)) <= 1).
  { intros x Hx Hpos.
    replace ((1.0 - x / 255.0 - (1.0 - IZR mx / 255.0))
             / (1.0 - (1.0 - IZR mx / 255.0)))
      with ((IZR mx - x) / IZR mx) by (rdec; field; lra).
    split.
    - apply Rmult_le_pos; [lra | left; now apply Rinv_0_lt_compat].
    - apply Rmult_le_reg_r with (IZR mx); [lra |].
      unfold Rdiv; rewrite Rmult_assoc, Rinv_l; lra. }
  cmp_cases; simpl.
  - assert (0 < IZR mx) by lra. repeat split; try apply Hq; lra.
  - repeat split; lra.
Qed.

(** ** The cube root *)

Lemma Rpower_third_cube (x : R) :
  0 < x -> Rpower x (/ 3) * Rpower x (/ 3) * Rpower x (/ 3) = x.
Proof.
  intros Hx; rewrite <- !Rpower_plus.
  replace (/ 3 + / 3 + / 3) with 1 by lra.
  now apply Rpower_1.
Qed.

Lemma cbrt_pos (x : R) : 0 < x -> cbrt x = Rpower x (/ 3).
Proof.
  intros Hx; unfold cbrt; cmp_cases; [reflexivity | lra].
Qed.

Lemma cbrt_gt_0 (x : R) : 0 < x -> 0 < cbrt x.
Proof. intros Hx; rewrite cbrt_pos by assumption; apply exp_pos. Qed.

Lemma cbrt_cube (x : R) : 0 < x -> cbrt x * cbrt x * cbrt x = x.
Proof. intros Hx; rewrite cbrt_pos by assumption; now apply Rpower_third_cube. Qed.

Lemma cube_lt_reg (u v : R) : 0 <= v -> u * u * u < v * v * v -> u < v.
Proof.
  intros Hv H; destruct (Rlt_le_dec u v) as [Hlt | Hle]; [assumption |].
  assert (v * v <= u * u) by nra.
  assert (v * v * v <= u * u * u) by nra.
  lra.
Qed.

Lemma cube_inj_pos (u v : R) :
  0 < u -> 0 < v -> u * u * u = v * v * v -> u = v.
Proof.
  intros Hu Hv H; destruct (Rtotal_order u v) as [Hlt | [Heq | Hgt]];
    [ | assumption | ].
  - assert (u * u < v * v) by nra. assert (u * u * u < v * v * v) by nra. lra.
  - assert (v * v < u * u) by nra. assert (v * v * v < u * u * u) by nra. lra.
Qed.

Lemma cbrt_of_cube (u : R) : 0 < u -> cbrt (u * u * u) = u.
Proof.
  intros Hu.
  assert (H3 : 0 < u * u * u) by (repeat apply Rmult_lt_0_compat; assumption).
  apply cube_inj_pos; [now apply cbrt_gt_0 | assumption | now apply cbrt_cube].
Qed.

Lemma cbrt_1 : cbrt 1 = 1.
Proof.
  replace 1 with (1 * 1 * 1) at 1 by lra. apply cbrt_of_cube; lra.
Qed.

(** ** XYZ <-> Lab *)

Lemma f_linear_max_cube : f_linear_max * f_linear_max * f_linear_max < 0.008856.
Proof. unfold f_linear_max; lra. Qed.

Lemma cube_le_linear_max (u : R) :
  u <= f_linear_max -> u * u * u < 0.008856.
Proof.
  intros Hu; pose proof f_linear_max_cube as Hc.
  destruct (Rle_lt_dec u 0) as [Hneg | Hpos].
  - assert (0 <= u * u) by nra. assert (u * u * u <= 0) by nra. lra.
  - assert (0 < f_linear_max) by (unfold f_linear_max; lra).
    assert (u * u <= f_linear_max * f_linear_max) by nra.
    assert (u * u * u <= f_linear_max * f_linear_max * f_linear_max) by nra.
    lra.
Qed.

(** [invf] undoes [f] everywhere. *)
Lemma invf_f (t : R) : labToXyz_invf (xyzToLab_f t) = t.
Proof.
  unfold xyzToLab_f; cbv zeta; cmp_cases.
  - assert (Ht : 0 < t) by lra.
    unfold labToXyz_invf; cbv zeta; rewrite (cbrt_cube t Ht).
    cmp_cases; [reflexivity | lra].
  - unfold labToXyz_invf; cbv zeta.
    set (u := 7.787 * t + 16.0 / 116.0).
    assert (Hu : u <= f_linear_max) by (unfold u, f_linear_max; lra).
    pose proof (cube_le_linear_max u Hu).
    cmp_cases; [lra | unfold u; rdec; field].
Qed.

Lemma f_invf (t : R) : outside_gap t -> xyzToLab_f (labToXyz_invf t) = t.
Proof.
  intros Hgap; unfold labToXyz_invf; cbv zeta; cmp_cases.
  - unfold xyzToLab_f; cbv zeta.
    assert (Ht : 0 < t).
    { destruct (Rle_lt_dec t 0) as [Hneg | Hpos]; [ | assumption].
      assert (0 <= t * t) by nra. assert (t * t * t <= 0) by nra. lra. }
    cmp_cases; [now apply cbrt_of_cube | lra].
  - destruct Hgap as [Hbig | Hsmall]; [lra |].
    unfold xyzToLab_f; cbv zeta.
    assert ((t - 16.0 / 116.0) / 7.787 <= 0.008856)
      by (unfold f_linear_max in Hsmall; lra).
    cmp_cases; [lra | rdec; field].
Qed.

Lemma labToXyz_xyzToLab (xyz : XYZ.t) : labToXyz (xyzToLab xyz) = xyz.
Proof.
  destruct xyz as [X Y Z]; unfold labToXyz, xyzToLab; simpl.
  set (fx := xyzToLab_f (X / REF_X)).
  set (fy := xyzToLab_f (Y / REF_Y)).
  set (fz := xyzToLab_f (Z / REF_Z)).
  replace ((116.0 * fy - 16.0 + 16.0) / 116.0) with fy by (rdec; field).
  replace (500.0 * (fx - fy) / 500.0 + fy) with fx by (rdec; field).
  replace (fy - 200.0 * (fy - fz) / 200.0) with fz by (rdec; field).
  subst fx fy fz; rewrite !invf_f.
  unfold REF_X, REF_Y, REF_Z; f_equal; rdec; field.
Qed.

(** ** The clipping flag and the clamp *)

Lemma out_of_unit_bool (v : R) :
  Rltb v 0.0 || Rgtb v 1.0 = true <-> out_of_unit v.
Proof.
  unfold out_of_unit; rewrite orb_true_iff, Rltb_true, Rgtb_true.
  split; intros [H | H]; (left; lra) || (right; lra).
Qed.

(** When the rounded value is a byte, the clamp and the conversion keep it. *)
Lemma channel_exact (ov : R -> Z) (v : R) :
  0 <= round v <= 255 -> IZR (clampInt (to_int ov (round v)) 0 255) = round v.
Proof.
  intros [H0 H1].
  assert (Hz : exists z : Z, round v = IZR z).
  { unfold round; destruct (Rleb 0 v); eexists; reflexivity. }
  destruct Hz as [z Hz]; rewrite Hz in *.
  apply le_IZR in H0, H1.
  rewrite to_int_IZR by (unfold INT_MIN, INT_MAX; lia).
  now rewrite clampInt_id.
Qed.

Lemma xyzToRgb_in_byte_range (ov : R -> Z) (xyz : XYZ.t) :
  in_byte_range (fst (xyzToRgb ov xyz)).
Proof.
  unfold xyzToRgb, xyzToRgb_clip.
  destruct (xyzToRgb_channels xyz) as [[r g] b]; simpl.
  repeat split; apply clampInt_range.
Qed.

Lemma cmykToRgb_in_byte_range (ov : R -> Z) (cmyk : CMYK.t) :
  in_byte_range (cmykToRgb ov cmyk).
Proof. unfold cmykToRgb; repeat split; apply clampInt_range. Qed.


(** ** Rounding *)

Lemma IZR_lt_succ_le (m n : Z) : IZR m < IZR n + 1 -> IZR m <= IZR n.
Proof.
  intros H; apply IZR_le, Z.lt_succ_r, lt_IZR. rewrite succ_IZR; exact H.
Qed.

Lemma Zceil_bound (x : R) : IZR (Zceil x) - 1 < x <= IZR (Zceil x).
Proof.
  unfold Zceil; pose proof (Zfloor_bound (- x)) as [H1 H2].
  rewrite opp_IZR; lra.
Qed.

Lemma round_integer (x : R) : exists z : Z, round x = IZR z.
Proof. unfold round; destruct (Rleb 0 x); eexists; reflexivity. Qed.

Lemma round_bounds (x : R) (a b : Z) :
  IZR a <= x <= IZR b -> IZR a <= round x <= IZR b.
Proof.
  intros [Ha Hb]; unfold round; cmp_cases.
  - pose proof (Zfloor_bound (x + / 2)) as [Hf1 Hf2].
    split; apply IZR_lt_succ_le; lra.
  - pose proof (Zceil_bound (x - / 2)) as [Hc1 Hc2].
    split; apply IZR_lt_succ_le; lra.
Qed.

Lemma round_bounds_half (x : R) (a b : Z) :
  IZR a - / 2 < x < IZR b + / 2 -> IZR a <= round x <= IZR b.
Proof.
  intros [Ha Hb]; unfold round; cmp_cases.
  - pose proof (Zfloor_bound (x + / 2)) as [Hf1 Hf2].
    split; apply IZR_lt_succ_le; lra.
  - pose proof (Zceil_bound (x - / 2)) as [Hc1 Hc2].
    split; apply IZR_lt_succ_le; lra.
Qed.

Lemma round_error (x : R) : - / 2 <= round x - x <= / 2.
Proof.
  unfold round; cmp_cases.
  - pose proof (Zfloor_bound (x + / 2)); lra.
  - pose proof (Zceil_bound (x - / 2)); lra.
Qed.

Lemma round_mono (x y : R) : x <= y -> round x <= round y.
Proof.
  intros Hxy; unfold round; repeat cmp_cases.
  - apply IZR_le, Zfloor_le; lra.
  - lra.
  - pose proof (Zceil_bound (x - / 2)) as [Hc1 Hc2].
    pose proof (Zfloor_bound (y + / 2)) as [Hf1 Hf2].
    apply IZR_lt_succ_le; lra.
  - apply IZR_le, Zceil_le; lra.
Qed.

(** A channel whose value before rounding lies in [[0,255]] needs no
    clamp. *)
Lemma channel_in_range_exact (ov : R -> Z) (v : R) :
  0 <= v <= 255 -> IZR (clampInt (to_int ov (round v)) 0 255) = round v.
Proof.
  intros Hv; apply channel_exact. apply (round_bounds v 0 255); lra.
Qed.

(** ** The clamp of [xyzToRgb] *)

(** A rounded value in the range of [int] is clamped to the nearer end
    of [[0,255]]. *)
Lemma clamp_saturates (ov : R -> Z) (x : R) (a b : Z) :
  (INT_MIN <= a)%Z -> (b <= INT_MAX)%Z -> IZR a <= x <= IZR b ->
  exists z : Z, (a <= z <= b)%Z
    /\ clampInt (to_int ov (round x)) 0 255 = clampInt z 0 255.
Proof.
  intros Ha Hb Hx; destruct (round_bounds x a b Hx) as [H1 H2].
  destruct (round_integer x) as [z Hz]; rewrite Hz in *.
  apply le_IZR in H1, H2; exists z; split; [lia |].
  now rewrite to_int_IZR by lia.
Qed.

Lemma clamp_policy (ov : R -> Z) (v : R) :
  clamped_byte v (clampInt (to_int ov (round (v * 255.0))) 0 255).
Proof.
  unfold clamped_byte; repeat match goal with |- _ /\ _ => split end.
  - intros H1 Hmax.
    destruct (clamp_saturates ov (v * 255.0) 255 INT_MAX) as (z & Hz & ->);
      [unfold INT_MIN; lia | lia | lra |].
    unfold clampInt; lia.
  - intros H0 Hmin.
    destruct (clamp_saturates ov (v * 255.0) INT_MIN 0) as (z & Hz & ->);
      [lia | unfold INT_MAX; lia | lra |].
    unfold clampInt; lia.
  - intros Hv; rewrite channel_in_range_exact by lra.
    pose proof (round_error (v * 255.0)); lra.
Qed.

(** Beyond the range of [int] the conversion yields what the platform
    yields. *)
Lemma to_int_overflow (ov : R -> Z) (x : R) :
  IZR INT_MAX + 1 <= x -> to_int ov (round x) = ov (round x).
Proof.
  intros Hx; destruct (round_integer x) as [z Hz].
  pose proof (round_error x) as He. rewrite Hz in *.
  unfold to_int; rewrite Ztrunc_IZR.
  assert (Hlt : (INT_MAX < z)%Z) by (apply lt_IZR; lra).
  destruct (Z.leb_spec z INT_MAX); [lia |].
  now rewrite andb_false_r.
Qed.

(** ** How far [f] is from undoing [invf] *)

Lemma cube_lt_compat (u v : R) : 0 <= u < v -> u * u * u < v * v * v.
Proof.
  intros [Hu Huv].
  assert (u * u < v * v) by nra.
  assert (0 <= u * u) by nra.
  nra.
Qed.

(** Outside the gap [f] undoes [invf]; inside it [invf] takes its linear
    branch and [f] its cube-root branch, which returns more, but less
    than a millionth more. *)
Lemma f_invf_near (u : R) :
  0 <= xyzToLab_f (labToXyz_invf u) - u <= 0.000001.
Proof.
  destruct (Rlt_le_dec 0.008856 (u * u * u)) as [Hbig | Hsmall].
  { rewrite f_invf by (left; assumption); lra. }
  destruct (Rle_lt_dec u f_linear_max) as [Hlin | Hgap].
  { rewrite f_invf by (right; assumption); lra. }
  unfold labToXyz_invf; cbv zeta; cmp_cases; [lra |].
  set (t := (u - 16.0 / 116.0) / 7.787).
  assert (Hflm : 0.2068927 < f_linear_max < 0.2068928)
    by (unfold f_linear_max; lra).
  assert (Hu : u < 0.2068931) by (apply cube_lt_reg; lra).
  assert (Ht : 0.008856 < t) by (unfold t, f_linear_max in *; lra).
  assert (Ht' : t <= (0.2068931 - 16.0 / 116.0) / 7.787) by (unfold t; lra).
  unfold xyzToLab_f; cbv zeta; cmp_cases; [ | lra].
  assert (Hpos : 0 < t) by lra.
  pose proof (cbrt_cube t Hpos) as Hc.
  pose proof (cbrt_gt_0 t Hpos) as Hg.
  split.
  - assert (u < cbrt t) by (apply cube_lt_reg; lra). lra.
  - destruct (Rle_lt_dec (cbrt t) (u + 0.000001)) as [Hle | Hlt]; [lra |].
    assert (H1 : (u + 0.000001) * (u + 0.000001) * (u + 0.000001)
                 < cbrt t * cbrt t * cbrt t)
      by (apply cube_lt_compat; lra).
    assert (H2 : 0.2068937 * 0.2068937 * 0.2068937
                 < (u + 0.000001) * (u + 0.000001) * (u + 0.000001))
      by (apply cube_lt_compat; lra).
    lra.
Qed.

Lemma xyzToLab_labToXyz_near (lab : Lab.t) :
  let lab' := xyzToLab (labToXyz lab) in
  within 0.00012 (Lab.L lab') (Lab.L lab)
  /\ within 0.0005 (Lab.a lab') (Lab.a lab)
  /\ within 0.0002 (Lab.b lab') (Lab.b lab).
Proof.
  destruct lab as [L a b]; unfold labToXyz, xyzToLab, within; simpl.
  set (fy := (L + 16.0) / 116.0).
  set (fx := a / 500.0 + fy).
  set (fz := fy - b / 200.0).
  replace (labToXyz_invf fx * REF_X / REF_X) with (labToXyz_invf fx)
    by (unfold REF_X; rdec; field).
  replace (labToXyz_invf fy * REF_Y / REF_Y) with (labToXyz_invf fy)
    by (unfold REF_Y; rdec; field).
  replace (labToXyz_invf fz * REF_Z / REF_Z) with (labToXyz_invf fz)
    by (unfold REF_Z; rdec; field).
  pose proof (f_invf_near fx) as Hx.
  pose proof (f_invf_near fy) as Hy.
  pose proof (f_invf_near fz) as Hz.
  assert (EL : L = 116.0 * fy - 16.0) by (unfold fy; lra).
  assert (Ea : a = 500.0 * (fx - fy)) by (unfold fx; lra).
  assert (Eb : b = 200.0 * (fy - fz)) by (unfold fz; lra).
  clearbody fx fy fz; lra.
Qed.

(** ** Soundness of the certificate *)

Lemma table_ok_true : table_ok = true.
Proof. vm_compute. reflexivity. Qed.

Lemma round_trip_ok_true : round_trip_ok = true.
Proof. vm_compute. reflexivity. Qed.

Lemma In_zrange (lo j : Z) (n : nat) :
  (lo <= j < lo + Z.of_nat n)%Z -> In j (zrange lo n).
Proof.
  intros Hj; unfold zrange; apply in_map_iff.
  exists (Z.to_nat (j - lo)); split; [lia | apply in_seq; lia].
Qed.

Lemma Qlt_bool_true (x y : Q) : Qlt_bool x y = true -> Q2R x < Q2R y.
Proof.
  unfold Qlt_bool; rewrite negb_true_iff; intros H.
  apply Qlt_Rlt, Qnot_le_lt; intros Hle.
  apply Qle_bool_iff in Hle; congruence.
Qed.

Lemma Qle_bool_true (x y : Q) : Qle_bool x y = true -> Q2R x <= Q2R y.
Proof. intros H; now apply Qle_Rle, Qle_bool_iff. Qed.

Lemma Q2R_inject_Z (z : Z) : Q2R (inject_Z z) = IZR z.
Proof. unfold Q2R; simpl; lra. Qed.

Lemma Q2R_Qpown (q : Q) (n : nat) : Q2R (Qpown q n) = Q2R q ^ n.
Proof.
  induction n as [| n IH]; simpl.
  - apply RMicromega.Q2R_1.
  - now rewrite Q2R_mult, IH.
Qed.

Lemma Q2R_pow_base (j : Z) :
  Q2R (pow_base j) = (IZR j / 510 + 0.055) / 1.055.
Proof.
  unfold pow_base; rewrite (Qeq_eqR _ _ (Qred_correct _)).
  rewrite Q2R_div by discriminate.
  rewrite Q2R_plus, Q2R_div by discriminate.
  rewrite Q2R_inject_Z; unfold Q2R; simpl; lra.
Qed.

Lemma pow_lt_strict (a b : R) (n : nat) :
  0 <= a < b -> a ^ S n < b ^ S n.
Proof.
  intros [Ha Hab]; induction n as [| n IH].
  - simpl; lra.
  - change (a * a ^ S n < b * b ^ S n).
    assert (0 <= a ^ S n) by (apply pow_le; assumption).
    nra.
Qed.

Lemma Rpower_24_pow5 (w : R) : 0 < w -> Rpower w 2.4 ^ 5 = w ^ 12.
Proof.
  intros Hw.
  rewrite <- (Rpower_pow 5) by apply exp_pos.
  rewrite Rpower_mult, <- (Rpower_pow 12) by assumption.
  f_equal; simpl; lra.
Qed.

Lemma Rpower_24_lower (w l : R) :
  0 < w -> 0 <= l -> l ^ 5 <= w ^ 12 -> l <= Rpower w 2.4.
Proof.
  intros Hw Hl H; destruct (Rle_lt_dec l (Rpower w 2.4)) as [Hle | Hlt];
    [assumption |].
  assert (Hp : 0 <= Rpower w 2.4 < l) by (split; [left; apply exp_pos | lra]).
  apply (pow_lt_strict _ _ 4) in Hp. rewrite Rpower_24_pow5 in Hp by assumption.
  lra.
Qed.

Lemma Rpower_24_upper (w h : R) :
  0 < w -> 0 <= h -> w ^ 12 <= h ^ 5 -> Rpower w 2.4 <= h.
Proof.
  intros Hw Hh H; destruct (Rle_lt_dec (Rpower w 2.4) h) as [Hle | Hlt];
    [assumption |].
  assert (Hp : 0 <= h < Rpower w 2.4) by lra.
  apply (pow_lt_strict _ _ 4) in Hp. rewrite Rpower_24_pow5 in Hp by assumption.
  lra.
Qed.

Lemma pow_lo_hi (j : Z) : Q2R (pow_hi j) = Q2R (pow_lo j) + / 1000000000.
Proof.
  unfold pow_hi, pow_lo; rewrite !Q2R_div by discriminate.
  rewrite !Q2R_inject_Z, plus_IZR. unfold Q2R; simpl; lra.
Qed.

Lemma forallb_zrange (f : Z -> bool) (lo : Z) (n : nat) :
  forallb f (zrange lo n) = true ->
  forall j : Z, (lo <= j < lo + Z.of_nat n)%Z -> f j = true.
Proof.
  intros H j Hj; rewrite forallb_forall in H; apply H, In_zrange, Hj.
Qed.

Lemma entry_ok_all (j : Z) : (-1 <= j <= 511)%Z -> entry_ok j = true.
Proof.
  intros Hj; generalize table_ok_true; unfold table_ok; intros H.
  apply (forallb_zrange entry_ok (-1) 513 H); lia.
Qed.

(** Every entry of the table encloses the power it stands for. *)
Lemma table_sound (j : Z) :
  (-1 <= j <= 511)%Z ->
  0 < IZR j / 510 + 0.055
  /\ Q2R (pow_lo j) <= pow_inv (IZR j / 510) <= Q2R (pow_hi j).
Proof.
  intros Hj.
  pose proof (entry_ok_all j Hj) as Hall; unfold entry_ok in Hall.
  rewrite !andb_true_iff in Hall; destruct Hall as [[[H0 Hb] Hl] Hh].
  apply Qle_bool_true in H0, Hl, Hh; apply Qlt_bool_true in Hb.
  rewrite !Q2R_Qpown in Hl, Hh; rewrite Q2R_pow_base in *.
  rewrite RMicromega.Q2R_0 in *.
  set (w := (IZR j / 510 + 0.055) / 1.055) in *.
  assert (Hpos : 0 < IZR j / 510 + 0.055) by (clear - Hb; subst w; lra).
  assert (Hhi : 0 <= Q2R (pow_hi j)) by (clear - H0; rewrite pow_lo_hi; lra).
  split; [assumption |]; unfold pow_inv, pow; fold w; split.
  - now apply Rpower_24_lower.
  - now apply Rpower_24_upper.
Qed.

(** ** The sRGB transfer curve *)

Lemma invGamma_linear (v : R) : v <= 0.04045 -> invGamma v = v / 12.92.
Proof. intros H; unfold invGamma; cmp_cases; [reflexivity | lra]. Qed.

Lemma invGamma_power (v : R) : 0.04045 < v -> invGamma v = pow_inv v.
Proof. intros H; unfold invGamma; cmp_cases; [lra | reflexivity]. Qed.

Lemma gammaSRGB_linear (x : R) : x <= 0.0031308 -> gammaSRGB x = 12.92 * x.
Proof. intros H; unfold gammaSRGB; cmp_cases; [reflexivity | lra]. Qed.

Lemma gammaSRGB_power (x : R) :
  0.0031308 < x -> gammaSRGB x = 1.055 * Rpower x (1.0 / 2.4) - 0.055.
Proof. intros H; unfold gammaSRGB; cmp_cases; [lra | reflexivity]. Qed.

Lemma pow_inv_pos (y : R) : 0 < pow_inv y.
Proof. apply exp_pos. Qed.

Lemma Rpower_pow_inv (y : R) :
  0 < y + 0.055 -> Rpower (pow_inv y) (1.0 / 2.4) = (y + 0.055) / 1.055.
Proof.
  intros Hy; unfold pow_inv, pow; rewrite Rpower_mult.
  replace (2.4 * (1.0 / 2.4)) with 1 by lra.
  apply Rpower_1; lra.
Qed.

Lemma gammaSRGB_lt (x y : R) :
  0.0031308 < x -> 0 < y + 0.055 -> x < pow_inv y -> gammaSRGB x < y.
Proof.
  intros Hx Hy Hlt; rewrite gammaSRGB_power by assumption.
  assert (H : Rpower x (1.0 / 2.4) < Rpower (pow_inv y) (1.0 / 2.4))
    by (apply Rlt_Rpower_l; lra).
  rewrite Rpower_pow_inv in H by assumption. lra.
Qed.

Lemma gammaSRGB_gt (x y : R) :
  0.0031308 < x -> 0 < y + 0.055 -> pow_inv y < x -> y < gammaSRGB x.
Proof.
  intros Hx Hy Hlt; rewrite gammaSRGB_power by assumption.
  pose proof (pow_inv_pos y) as Hp.
  assert (H : Rpower (pow_inv y) (1.0 / 2.4) < Rpower x (1.0 / 2.4))
    by (apply Rlt_Rpower_l; lra).
  rewrite Rpower_pow_inv in H by assumption. lra.
Qed.

(** [gammaSRGB] keeps an interval of linear values inside a window
    [(ylo, yhi)], given bounds on [pow_inv] at the two ends of the window. *)
Lemma gamma_window (x xlo xhi ylo yhi plo phi : R) :
  xlo <= x <= xhi ->
  0 < ylo + 0.055 -> 0 < yhi + 0.055 ->
  pow_inv ylo <= plo -> phi <= pow_inv yhi ->
  (0.0031308 < xlo
   \/ (ylo < 12.92 * xlo
       /\ (12.92 * xhi < yhi \/ 12.92 * 0.0031308 < yhi))) ->
  (xhi <= 0.0031308
   \/ ((plo < xlo \/ plo <= 0.0031308) /\ xhi < phi)) ->
  ylo < gammaSRGB x < yhi.
Proof.
  intros [Hlo Hhi] Hyl Hyh Hpl Hph Hlin Hpow.
  destruct (Rle_lt_dec x 0.0031308) as [Hx | Hx].
  - rewrite gammaSRGB_linear by assumption.
    destruct Hlin as [Hc | [Hl [Hu | Hu]]]; lra.
  - destruct Hpow as [Hc | [Hl Hu]]; [lra |]; split.
    + apply gammaSRGB_gt; try assumption. destruct Hl; lra.
    + apply gammaSRGB_lt; try assumption. lra.
Qed.

Lemma lin_enclosure_sound (i : Z) :
  (0 <= i <= 255)%Z ->
  Q2R (fst (lin_enclosure i)) <= invGamma (IZR i / 255.0)
  <= Q2R (snd (lin_enclosure i)).
Proof.
  intros Hi; unfold lin_enclosure.
  destruct (Z.leb_spec i 10) as [Hle | Hgt]; simpl.
  - apply IZR_le in Hle.
    rewrite invGamma_linear by lra.
    rewrite !Q2R_div by discriminate; rewrite Q2R_inject_Z.
    assert (Q2R 255 = 255.0) by (unfold Q2R; simpl; lra).
    lra.
  - assert (H11 : (11 <= i)%Z) by lia. apply IZR_le in H11.
    rewrite invGamma_power by lra.
    destruct (table_sound (2 * i)) as [_ H]; [lia |].
    replace (IZR (2 * i) / 510) with (IZR i / 255.0) in H
      by (rewrite mult_IZR; lra).
    exact H.
Qed.

Lemma Q2R_half_step (z : Z) : Q2R (inject_Z z / 510) = IZR z / 510.
Proof.
  rewrite Q2R_div by discriminate; rewrite Q2R_inject_Z.
  unfold Q2R; simpl; lra.
Qed.

(** What a passed [channel_ok] check means. *)
Lemma channel_ok_sound (a dlo dhi : Q) (i : Z) (x : R) :
  (0 <= i <= 255)%Z -> 0 <= Q2R a ->
  channel_ok a dlo dhi i = true ->
  Q2R a * invGamma (IZR i / 255.0) + Q2R dlo <= x
  <= Q2R a * invGamma (IZR i / 255.0) + Q2R dhi ->
  IZR i - / 2 < gammaSRGB x * 255.0 < IZR i + / 2.
Proof.
  intros Hi Ha Hok Hx.
  pose proof (lin_enclosure_sound i Hi) as Henc.
  unfold channel_ok in Hok.
  destruct (lin_enclosure i) as [l h]; simpl in Henc.
  destruct (table_sound (2 * i - 1)) as [Hyl [_ Hpl]]; [lia |].
  destruct (table_sound (2 * i + 1)) as [Hyh [Hph _]]; [lia |].
  apply andb_true_iff in Hok; destruct Hok as [Hlin Hpow].
  assert (Hw : IZR (2 * i - 1) / 510 < gammaSRGB x
               < IZR (2 * i + 1) / 510).
  { apply gamma_window with
      (xlo := Q2R (a * l + dlo)) (xhi := Q2R (a * h + dhi))
      (plo := Q2R (pow_hi (2 * i - 1))) (phi := Q2R (pow_lo (2 * i + 1)));
      try assumption.
    - rewrite !Q2R_plus, !Q2R_mult.
      assert (Q2R a * Q2R l <= Q2R a * invGamma (IZR i / 255.0))
        by (apply Rmult_le_compat_l; lra).
      assert (Q2R a * invGamma (IZR i / 255.0) <= Q2R a * Q2R h)
        by (apply Rmult_le_compat_l; lra).
      lra.
    - apply orb_true_iff in Hlin; destruct Hlin as [H | H].
      + left; now apply Qlt_bool_true in H.
      + right; apply andb_true_iff in H; destruct H as [H1 H2].
        apply Qlt_bool_true in H1.
        rewrite Q2R_mult, Q2R_half_step in H1.
        split; [exact H1 |].
        apply orb_true_iff in H2; destruct H2 as [H2 | H2];
          apply Qlt_bool_true in H2; rewrite Q2R_mult, Q2R_half_step in H2;
          [left | right]; exact H2.
    - apply orb_true_iff in Hpow; destruct Hpow as [H | H].
      + left; now apply Qle_bool_true in H.
      + right; apply andb_true_iff in H; destruct H as [H1 H2].
        apply Qlt_bool_true in H2. split; [ | exact H2].
        apply orb_true_iff in H1; destruct H1 as [H1 | H1].
        * left; now apply Qlt_bool_true in H1.
        * right; now apply Qle_bool_true in H1. }
  rewrite minus_IZR, mult_IZR in Hw; rewrite plus_IZR, mult_IZR in Hw.
  lra.
Qed.

Lemma Rpower_one (y : R) : Rpower 1 y = 1.
Proof. unfold Rpower; rewrite ln_1, Rmult_0_r; apply exp_0. Qed.

(** Linear light of a byte lies in [[0,1]]. *)
Lemma invGamma_unit (i : Z) :
  (0 <= i <= 255)%Z -> 0 <= invGamma (IZR i / 255.0) <= 1.
Proof.
  intros [H0 H1]; apply IZR_le in H0, H1.
  destruct (Rle_lt_dec (IZR i / 255.0) 0.04045) as [Hv | Hv].
  - rewrite invGamma_linear by assumption; lra.
  - rewrite invGamma_power by assumption; split.
    + left; apply pow_inv_pos.
    + unfold pow_inv, pow; rewrite <- (Rpower_one 2.4).
      apply Rle_Rpower_l; lra.
Qed.

(** The linear channels after [rgbToXyz] and the matrix of [xyzToRgb]. *)
Lemma round_trip_channels (rgb : RGB.t) :
  let rl := invGamma (IZR (RGB.r rgb) / 255.0) in
  let gl := invGamma (IZR (RGB.g rgb) / 255.0) in
  let bl := invGamma (IZR (RGB.b rgb) / 255.0) in
  xyzToRgb_channels (rgbToXyz rgb)
  = (gammaSRGB (Q2R P11 * rl + Q2R P12 * gl + Q2R P13 * bl),
     gammaSRGB (Q2R P21 * rl + Q2R P22 * gl + Q2R P23 * bl),
     gammaSRGB (Q2R P31 * rl + Q2R P32 * gl + Q2R P33 * bl)).
Proof.
  intros rl gl bl; unfold xyzToRgb_channels, rgbToXyz; simpl.
  fold rl gl bl.
  unfold P11, P12, P13, P21, P22, P23, P31, P32, P33.
  f_equal; [f_equal |]; f_equal; lra.
Qed.

Lemma round_trip_checked (i : Z) :
  (0 <= i <= 255)%Z ->
  channel_ok P11 P13 P12 i = true
  /\ channel_ok P22 P23 P21 i = true
  /\ channel_ok P33 0 (P31 + P32) i = true.
Proof.
  intros Hi; generalize round_trip_ok_true; unfold round_trip_ok; intros H.
  pose proof (forallb_zrange _ 0 256 H i) as Hi'; cbv beta in Hi'.
  rewrite !andb_true_iff in Hi'. destruct Hi' as [[H1 H2] H3]; [lia |].
  auto.
Qed.

Lemma xyzToRgb_rgbToXyz_fst (ov : R -> Z) (rgb : RGB.t) :
  valid_rgb rgb -> fst (xyzToRgb ov (rgbToXyz rgb)) = rgb.
Proof.
  intros (Hr & Hg & Hb).
  pose proof (round_trip_channels rgb) as Hch; cbv zeta in Hch.
  unfold xyzToRgb; rewrite Hch; clear Hch; unfold xyzToRgb_clip.
  destruct rgb as [r g b]; simpl in *.
  pose proof (invGamma_unit r Hr) as Ur.
  pose proof (invGamma_unit g Hg) as Ug.
  pose proof (invGamma_unit b Hb) as Ub.
  destruct (round_trip_checked r Hr) as (Cr & _ & _).
  destruct (round_trip_checked g Hg) as (_ & Cg & _).
  destruct (round_trip_checked b Hb) as (_ & _ & Cb).
  f_equal; apply channel_near; try assumption.
  - apply (channel_ok_sound P11 P13 P12); try assumption;
      unfold P11, P12, P13 in *; rewrite ?Q2R_plus; lra.
  - apply (channel_ok_sound P22 P23 P21); try assumption;
      unfold P21, P22, P23 in *; rewrite ?Q2R_plus; lra.
  - apply (channel_ok_sound P33 0 (P31 + P32)); try assumption;
      unfold P31, P32, P33 in *; rewrite ?Q2R_plus, ?RMicromega.Q2R_0; lra.
Qed.


(** ** Monotonicity of the RGB -> XYZ path *)

Lemma invGamma_threshold : 0.04045 / 12.92 <= pow_inv 0.04045.
Proof.
  unfold pow_inv, pow; apply Rpower_24_lower; [lra | lra |].
  simpl; lra.
Qed.

Lemma pow_inv_mono (v v' : R) :
  0 < v + 0.055 -> v <= v' -> pow_inv v <= pow_inv v'.
Proof.
  intros Hv Hle; unfold pow_inv, pow; apply Rle_Rpower_l; lra.
Qed.

Lemma invGamma_mono (v v' : R) : v <= v' -> invGamma v <= invGamma v'.
Proof.
  intros Hle.
  destruct (Rle_lt_dec v 0.04045) as [Hv | Hv];
    destruct (Rle_lt_dec v' 0.04045) as [Hv' | Hv'].
  - rewrite !invGamma_linear by assumption; lra.
  - rewrite invGamma_linear, invGamma_power by assumption.
    pose proof invGamma_threshold.
    assert (pow_inv 0.04045 <= pow_inv v') by (apply pow_inv_mono; lra).
    lra.
  - lra.
  - rewrite !invGamma_power by assumption. apply pow_inv_mono; lra.
Qed.

Lemma rgbToXyz_mono (p q : RGB.t) :
  (RGB.r p <= RGB.r q)%Z -> (RGB.g p <= RGB.g q)%Z ->
  (RGB.b p <= RGB.b q)%Z ->
  xyz_le (rgbToXyz p) (rgbToXyz q).
Proof.
  intros Hr Hg Hb; apply IZR_le in Hr, Hg, Hb.
  assert (Lr : invGamma (IZR (RGB.r p) / 255.0)
               <= invGamma (IZR (RGB.r q) / 255.0))
    by (apply invGamma_mono; lra).
  assert (Lg : invGamma (IZR (RGB.g p) / 255.0)
               <= invGamma (IZR (RGB.g q) / 255.0))
    by (apply invGamma_mono; lra).
  assert (Lb : invGamma (IZR (RGB.b p) / 255.0)
               <= invGamma (IZR (RGB.b q) / 255.0))
    by (apply invGamma_mono; lra).
  unfold xyz_le, rgbToXyz; simpl; repeat split; lra.
Qed.

(** ** The checked engine never fails *)

Lemma Checked_div_ok (x y : R) : y <> 0 -> Checked.div x y = Some (x / y).
Proof.
  intros Hy; unfold Checked.div; destruct (Req_dec_T y 0); [contradiction | reflexivity].
Qed.

Lemma Checked_pow_ok (x y : R) : 0 < x -> Checked.pow x y = Some (pow x y).
Proof.
  intros Hx; unfold Checked.pow; cmp_cases; [reflexivity | lra].
Qed.

(** Discharge the divisions by a non-zero constant. *)
Ltac div_const :=
  repeat (rewrite Checked_div_ok by (unfold REF_X, REF_Y, REF_Z; lra);
          cbn [Checked.bind]).

Lemma Checked_rgbToCmyk_ok (rgb : RGB.t) :
  Checked.rgbToCmyk rgb = Some (rgbToCmyk rgb).
Proof.
  unfold Checked.rgbToCmyk, rgbToCmyk; div_const.
  cmp_cases; [ | reflexivity].
  div_const. reflexivity.
Qed.

Lemma Checked_invGamma_ok (v : R) : Checked.invGamma v = Some (invGamma v).
Proof.
  unfold Checked.invGamma, invGamma; cmp_cases; div_const; [reflexivity |].
  apply Checked_pow_ok; lra.
Qed.

Lemma Checked_gammaSRGB_ok (v : R) : Checked.gammaSRGB v = Some (gammaSRGB v).
Proof.
  unfold Checked.gammaSRGB, gammaSRGB; cmp_cases; [reflexivity |].
  div_const. rewrite Checked_pow_ok by lra. reflexivity.
Qed.

Lemma Checked_rgbToXyz_ok (rgb : RGB.t) :
  Checked.rgbToXyz rgb = Some (rgbToXyz rgb).
Proof.
  unfold Checked.rgbToXyz, rgbToXyz; div_const.
  rewrite !Checked_invGamma_ok; reflexivity.
Qed.

Lemma Checked_xyzToRgb_ok (ov : R -> Z) (xyz : XYZ.t) :
  Checked.xyzToRgb ov xyz = Some (xyzToRgb ov xyz).
Proof.
  unfold Checked.xyzToRgb, xyzToRgb, xyzToRgb_clip, xyzToRgb_channels.
  div_const.
  rewrite !Checked_gammaSRGB_ok; reflexivity.
Qed.

Lemma Checked_xyzToLab_f_ok (t : R) :
  Checked.xyzToLab_f t = Some (xyzToLab_f t).
Proof.
  unfold Checked.xyzToLab_f, xyzToLab_f; cbv zeta; cmp_cases;
    [reflexivity | div_const; reflexivity].
Qed.

Lemma Checked_labToXyz_invf_ok (t : R) :
  Checked.labToXyz_invf t = Some (labToXyz_invf t).
Proof.
  unfold Checked.labToXyz_invf, labToXyz_invf; cbv zeta; cmp_cases;
    [reflexivity | div_const; reflexivity].
Qed.

Lemma Checked_xyzToLab_ok (xyz : XYZ.t) :
  Checked.xyzToLab xyz = Some (xyzToLab xyz).
Proof.
  unfold Checked.xyzToLab, xyzToLab; div_const.
  rewrite !Checked_xyzToLab_f_ok; reflexivity.
Qed.

Lemma Checked_labToXyz_ok (lab : Lab.t) :
  Checked.labToXyz lab = Some (labToXyz lab).
Proof.
  unfold Checked.labToXyz, labToXyz; div_const.
  rewrite !Checked_labToXyz_invf_ok; reflexivity.
Qed.


(** * The claims on the real-arithmetic embedding *)




(** Claim C3, as the code has it.  [xyzToLab] and [labToXyz] undo each
    other closely, not exactly.  For components in [[-1000, 1000]],
    [labToXyz (xyzToLab xyz)] is within [0.00001] of [xyz] in each of X,
    Y, Z, and [xyzToLab (labToXyz lab)] is within [0.00012] of [lab] in
    L, within [0.0005] in a and within [0.0002] in b.  The margins cover
    the gap between the two branches of the piecewise function (see
    [lab_in_gap_not_restored]) and, on the doubles, the rounding of each
    operation. *)
Theorem lab_xyz_near_inverse (xyz : XYZ.t) (lab : Lab.t) :
  xyz_bounded xyz -> lab_bounded lab ->
  let xyz' := labToXyz (xyzToLab xyz) in
  let lab' := xyzToLab (labToXyz lab) in
  (within 0.00001 (XYZ.X xyz') (XYZ.X xyz)
   /\ within 0.00001 (XYZ.Y xyz') (XYZ.Y xyz)
   /\ within 0.00001 (XYZ.Z xyz') (XYZ.Z xyz))
  /\ (within 0.00012 (Lab.L lab') (Lab.L lab)
      /\ within 0.0005 (Lab.a lab') (Lab.a lab)
      /\ within 0.0002 (Lab.b lab') (Lab.b lab)).
Proof.
  intros _ _ xyz' lab'; subst xyz' lab'; split.
  - rewrite labToXyz_xyzToLab; unfold within; repeat split; lra.
  - apply xyzToLab_labToXyz_near.
Qed.

Lemma lab_xyz_near_inverse_witness :
  xyz_bounded (XYZ.mk 40 50 60) /\ lab_bounded (Lab.mk 50 20 (-30))
  /\ within 0.00012
       (Lab.L (xyzToLab (labToXyz (Lab.mk 50 20 (-30))))) 50.
Proof.
  assert (Hx : xyz_bounded (XYZ.mk 40 50 60))
    by (unfold xyz_bounded; simpl; lra).
  assert (Hl : lab_bounded (Lab.mk 50 20 (-30)))
    by (unfold lab_bounded; simpl; lra).
  split; [exact Hx |]. split; [exact Hl |].
  exact (proj1 (proj2 (lab_xyz_near_inverse _ _ Hx Hl))).
Defined.

(** Counterexample to claim C3 as stated: for [L = 7.99957, a = b = 0]
    the lightness that comes back from [xyzToLab (labToXyz lab)] is
    larger than the one that went in, by more than [0.00003]. *)
Lemma lab_in_gap_not_restored :
  Lab.L lab_in_gap + 0.00003 < Lab.L (xyzToLab (labToXyz lab_in_gap)).
Proof.
  unfold lab_in_gap, labToXyz, xyzToLab; simpl.
  set (fy := (7.99957 + 16.0) / 116.0).
  assert (Hlow : f_linear_max < fy) by (unfold fy, f_linear_max; lra).
  assert (Hcube : fy * fy * fy <= 0.008856) by (unfold fy; lra).
  assert (Hinv : labToXyz_invf fy = (fy - 16.0 / 116.0) / 7.787).
  { unfold labToXyz_invf; cbv zeta; cmp_cases; [lra | reflexivity]. }
  rewrite Hinv.
  set (t := (fy - 16.0 / 116.0) / 7.787).
  assert (Ht : 0.008856 < t) by (unfold t, f_linear_max in *; lra).
  replace (t * REF_Y / REF_Y) with t by (unfold REF_Y; rdec; field).
  unfold xyzToLab_f; cbv zeta; cmp_cases; [ | lra].
  assert (Hpos : 0 < t) by lra.
  pose proof (cbrt_cube t Hpos) as Hc.
  pose proof (cbrt_gt_0 t Hpos) as Hg.
  assert (fy + 0.00003 / 116 < cbrt t).
  { apply cube_lt_reg; [lra |]. rewrite Hc. unfold t, fy; lra. }
  unfold fy in *; lra.
Qed.

(** Claim C4, as the code has it.  [xyzToRgb] sets the flag exactly when
    one of the gamma-encoded channels lies outside [[0,1]], and whatever
    the flag says every returned channel is in [[0,255]].  A channel [v]
    with [255 * v] in the range of [int] is clamped after rounding: it
    is returned as [255] when [v >= 1], as [0] when [v <= 0], and as the
    nearest integer to [255 * v] in between.  Beyond the range of [int]
    the conversion has no defined result and the channel is whatever the
    clamp makes of the platform's answer (see
    [xyzToRgb_bright_not_saturated]). *)
Theorem xyzToRgb_clipping_policy (ov : R -> Z) (r g b : R) :
  let '(rgb, clipped) := xyzToRgb_clip ov r g b in
  (clipped = true <-> out_of_unit r \/ out_of_unit g \/ out_of_unit b)
  /\ in_byte_range rgb
  /\ clamped_byte r (RGB.r rgb)
  /\ clamped_byte g (RGB.g rgb)
  /\ clamped_byte b (RGB.b rgb).
Proof.
  unfold xyzToRgb_clip; cbv zeta.
  split; [ | split; [ | cbn [RGB.r RGB.g RGB.b]; split; [ | split ]]].
  - rewrite <- !out_of_unit_bool, <- !orb_true_iff, !orb_assoc.
    reflexivity.
  - unfold in_byte_range; simpl; repeat split; apply clampInt_range.
  - apply clamp_policy.
  - apply clamp_policy.
  - apply clamp_policy.
Qed.

Lemma xyzToRgb_clipping_policy_witness :
  1 <= 2 /\ 2 * 255.0 <= IZR INT_MAX
  /\ RGB.r (fst (xyzToRgb_clip x86_cast_overflow 2 (-1) 0.5)) = 255%Z.
Proof.
  assert (H1 : 1 <= 2) by lra.
  assert (H2 : 2 * 255.0 <= IZR INT_MAX) by (unfold INT_MAX; lra).
  split; [exact H1 |]. split; [exact H2 |].
  exact (proj1 (proj1 (proj2 (proj2
           (xyzToRgb_clipping_policy x86_cast_overflow 2 (-1) 0.5))))
         H1 H2).
Defined.

(** Counterexample to claim C4 as stated: the red channel of
    [XYZ{1e30, 0, 0}] is far above 1, yet where an overflowing
    conversion yields [INT_MIN] (x86-64) the byte returned is [0], not
    [255]. *)
Lemma xyzToRgb_bright_not_saturated :
  1 < fst (fst (xyzToRgb_channels xyz_bright))
  /\ RGB.r (fst (xyzToRgb x86_cast_overflow xyz_bright)) = 0%Z.
Proof.
  unfold xyzToRgb, xyz_bright, xyzToRgb_channels; simpl.
  set (rl := 1e30 / 100.0 * 3.2406 + 0 / 100.0 * - 1.5372
             + 0 / 100.0 * - 0.4986).
  assert (Hrl : 1e28 < rl) by (unfold rl; lra).
  assert (Hg : 10000000 < gammaSRGB rl).
  { apply gammaSRGB_gt; [lra | lra |].
    assert (pow_inv 10000000 <= 1e20); [ | lra].
    unfold pow_inv, pow; apply Rpower_24_upper; [lra | lra |].
    simpl; lra. }
  split; [lra |].
  rewrite to_int_overflow by (unfold INT_MAX; lra).
  reflexivity.
Qed.

(** Claim C6.  [xyzToLab] of the reference white is [L = 100, a = 0,
    b = 0], exactly over the reals. *)
Theorem xyzToLab_reference_white :
  xyzToLab (XYZ.mk REF_X REF_Y REF_Z) = Lab.mk 100 0 0.
Proof.
  unfold xyzToLab; simpl.
  replace (REF_X / REF_X) with 1 by (unfold REF_X; lra).
  replace (REF_Y / REF_Y) with 1 by (unfold REF_Y; lra).
  replace (REF_Z / REF_Z) with 1 by (unfold REF_Z; lra).
  assert (H1 : xyzToLab_f 1 = 1).
  { unfold xyzToLab_f; cbv zeta; cmp_cases; [apply cbrt_1 | lra]. }
  rewrite H1; f_equal; lra.
Qed.

(** Claim C7.  None of the eight conversion functions can fail: with
    every division and every [std::pow] checked, each of them returns,
    for every input, the value of the unchecked function.  In particular
    the division by [1 - k] in [rgbToCmyk] is only reached under the
    guard [k < 1.0 - 1e-12], where [1 - k] is not zero. *)
Theorem conversions_never_fail (ov : R -> Z) :
  (forall rgb, Checked.rgbToCmyk rgb = Some (rgbToCmyk rgb))
  /\ (forall cmyk, Checked.cmykToRgb ov cmyk = Some (cmykToRgb ov cmyk))
  /\ (forall rgb, Checked.rgbToXyz rgb = Some (rgbToXyz rgb))
  /\ (forall xyz, Checked.xyzToRgb ov xyz = Some (xyzToRgb ov xyz))
  /\ (forall xyz, Checked.xyzToLab xyz = Some (xyzToLab xyz))
  /\ (forall lab, Checked.labToXyz lab = Some (labToXyz lab))
  /\ (forall rgb, Checked.rgbToLab rgb = Some (rgbToLab rgb))
  /\ (forall lab, Checked.labToRgb ov lab = Some (labToRgb ov lab)).
Proof.
  repeat match goal with |- _ /\ _ => split end; intros.
  - apply Checked_rgbToCmyk_ok.
  - reflexivity.
  - apply Checked_rgbToXyz_ok.
  - apply Checked_xyzToRgb_ok.
  - apply Checked_xyzToLab_ok.
  - apply Checked_labToXyz_ok.
  - unfold Checked.rgbToLab, rgbToLab.
    rewrite Checked_rgbToXyz_ok; apply Checked_xyzToLab_ok.
  - unfold Checked.labToRgb, labToRgb.
    rewrite Checked_labToXyz_ok; apply Checked_xyzToRgb_ok.
Qed.

(** Claim C8.  Every conversion into RGB returns channels in [[0,255]]
    for every input, also for CMYK, XYZ or Lab values outside their
    nominal range and whatever an overflowing conversion to [int]
    yields; for [cmykToRgb] this holds on the doubles too, NaN and
    infinities included. *)
Theorem rgb_results_in_byte_range :
  (forall ov cmyk, in_byte_range (cmykToRgb ov cmyk))
  /\ (forall ov xyz, in_byte_range (fst (xyzToRgb ov xyz)))
  /\ (forall ov lab, in_byte_range (fst (labToRgb ov lab)))
  /\ (forall ov cmyk, in_byte_range (Binary64.cmykToRgb ov cmyk)).
Proof.
  repeat match goal with |- _ /\ _ => split end; intros.
  - apply cmykToRgb_in_byte_range.
  - apply xyzToRgb_in_byte_range.
  - unfold labToRgb; apply xyzToRgb_in_byte_range.
  - unfold Binary64.cmykToRgb, in_byte_range; simpl.
    repeat split; apply clampInt_range.
Qed.

(** Claim C10.  [rgbToXyz] is monotone in each channel: if two triples
    with channels in [[0,255]] agree on two channels and the third of
    the first is at most that of the second, then each of X, Y, Z of the
    first result is at most that of the second. *)
Theorem rgbToXyz_monotone (p q : RGB.t) :
  valid_rgb p -> valid_rgb q ->
  ((RGB.r p <= RGB.r q)%Z /\ RGB.g p = RGB.g q /\ RGB.b p = RGB.b q)
  \/ (RGB.r p = RGB.r q /\ (RGB.g p <= RGB.g q)%Z /\ RGB.b p = RGB.b q)
  \/ (RGB.r p = RGB.r q /\ RGB.g p = RGB.g q /\ (RGB.b p <= RGB.b q)%Z) ->
  xyz_le (rgbToXyz p) (rgbToXyz q).
Proof.
  intros _ _ H; apply rgbToXyz_mono; lia.
Qed.

Lemma rgbToXyz_monotone_witness :
  valid_rgb (RGB.mk 10 200 30) /\ valid_rgb (RGB.mk 10 201 30)
  /\ xyz_le (rgbToXyz (RGB.mk 10 200 30)) (rgbToXyz (RGB.mk 10 201 30)).
Proof.
  assert (Hp : valid_rgb (RGB.mk 10 200 30))
    by (unfold valid_rgb; simpl; lia).
  assert (Hq : valid_rgb (RGB.mk 10 201 30))
    by (unfold valid_rgb; simpl; lia).
  split; [exact Hp |]. split; [exact Hq |].
  apply (rgbToXyz_monotone _ _ Hp Hq).
  right; left; simpl; lia.
Defined.

(** * Properties of the binary64 embedding *)

Lemma quot_order_ok_true : quot_order_ok = true.
Proof. vm_compute. reflexivity. Qed.

Lemma bytes_ok_true : bytes_ok = true.
Proof. vm_compute. reflexivity. Qed.

Lemma quot_order (i j : Z) :
  is_byte i -> is_byte j ->
  PrimFloat.ltb (byte_quot i) (byte_quot j) = (i <? j)%Z.
Proof.
  intros Hi Hj; generalize quot_order_ok_true; unfold quot_order_ok.
  cbv beta; intros H; rewrite forallb_forall in H.
  assert (In_quot : forall n, is_byte n ->
            In (n, byte_quot n)
               (map (fun i => (i, byte_quot i)) (zrange 0 256))).
  { intros n Hn; apply in_map_iff; exists n; split; [reflexivity |].
    apply In_zrange; unfold is_byte in Hn; lia. }
  specialize (H _ (In_quot i Hi)); rewrite forallb_forall in H.
  specialize (H _ (In_quot j Hj)); simpl in H.
  now apply Bool.eqb_prop in H.
Qed.

Lemma byte_checked (mx : Z) : is_byte mx -> byte_ok mx = true.
Proof.
  intros Hmx; generalize bytes_ok_true; unfold bytes_ok; intros H.
  apply (forallb_zrange byte_ok 0 256 H); unfold is_byte in Hmx; lia.
Qed.

Lemma pair_checked (x mx : Z) :
  is_byte x -> is_byte mx -> (x <= mx)%Z ->
  Binary64.Ztrunc (Binary64.round (cmyk_back x mx)) = Some x
  /\ unit_float (cmyk_c x mx) = true.
Proof.
  intros Hx Hmx Hle; pose proof (byte_checked mx Hmx) as H.
  unfold byte_ok in H; rewrite !andb_true_iff in H.
  destruct H as [_ H].
  pose proof (forallb_zrange _ 0 256 H x) as Hp; cbv beta in Hp.
  unfold pair_ok in Hp; unfold is_byte in Hx.
  destruct (Z.ltb_spec mx x) as [Hlt | _]; [lia |].
  simpl in Hp. rewrite andb_true_iff in Hp; destruct Hp as [Hz Hu]; [lia |].
  split; [ | exact Hu].
  destruct (Binary64.Ztrunc _) as [z |]; [ | discriminate].
  apply Z.eqb_eq in Hz; now subst.
Qed.

Lemma max3_quot (r g b : Z) :
  is_byte r -> is_byte g -> is_byte b ->
  Binary64.max3 (byte_quot r) (byte_quot g) (byte_quot b)
  = byte_quot (Z.max (Z.max r g) b).
Proof.
  intros Hr Hg Hb; unfold Binary64.max3.
  rewrite (quot_order r g Hr Hg).
  destruct (Z.ltb_spec r g) as [Hrg | Hrg].
  - rewrite (quot_order g b Hg Hb).
    destruct (Z.ltb_spec g b); f_equal; lia.
  - rewrite (quot_order r b Hr Hb).
    destruct (Z.ltb_spec r b); f_equal; lia.
Qed.

(** On bytes [rgbToCmyk] is given channel by channel. *)
Lemma rgbToCmyk_bytes (rgb : RGB.t) :
  valid_rgb rgb ->
  Binary64.rgbToCmyk rgb
  = Binary64.CMYK.mk (cmyk_c (RGB.r rgb) (max_channel rgb))
                     (cmyk_c (RGB.g rgb) (max_channel rgb))
                     (cmyk_c (RGB.b rgb) (max_channel rgb))
                     (cmyk_k (max_channel rgb)).
Proof.
  intros (Hr & Hg & Hb); unfold Binary64.rgbToCmyk.
  change (PrimFloat.div (Binary64.of_int ?z) 255.0%float) with (byte_quot z).
  rewrite (max3_quot _ _ _ Hr Hg Hb); fold (max_channel rgb).
  unfold cmyk_c, cmyk_guard, cmyk_k.
  destruct (PrimFloat.ltb _ _); reflexivity.
Qed.

Lemma max_channel_byte (rgb : RGB.t) :
  valid_rgb rgb ->
  is_byte (max_channel rgb)
  /\ (RGB.r rgb <= max_channel rgb)%Z
  /\ (RGB.g rgb <= max_channel rgb)%Z
  /\ (RGB.b rgb <= max_channel rgb)%Z.
Proof. unfold valid_rgb, is_byte, max_channel; lia. Qed.

Lemma b64_channel_back (ov : PrimFloat.float -> Z) (x mx : Z) :
  is_byte x -> is_byte mx -> (x <= mx)%Z ->
  clampInt (Binary64.to_int ov (Binary64.round (cmyk_back x mx))) 0 255 = x.
Proof.
  intros Hx Hmx Hle; destruct (pair_checked x mx Hx Hmx Hle) as [Hz _].
  unfold Binary64.to_int; rewrite Hz.
  unfold is_byte in Hx.
  destruct (Z.leb_spec INT_MIN x), (Z.leb_spec x INT_MAX);
    unfold INT_MIN, INT_MAX in *; simpl; try lia.
  now apply clampInt_id.
Qed.

(** Claim C2.  For every RGB triple with each channel in [[0,255]],
    [cmykToRgb (rgbToCmyk rgb)] is [rgb] exactly.  Proved on the doubles:
    the roundings of the intermediate divisions, subtractions and
    products never move the result far enough from the original channel
    for [std::round] to miss it. *)
Theorem cmykToRgb_rgbToCmyk (ov : PrimFloat.float -> Z) (rgb : RGB.t) :
  valid_rgb rgb -> Binary64.cmykToRgb ov (Binary64.rgbToCmyk rgb) = rgb.
Proof.
  intros Hv; rewrite (rgbToCmyk_bytes rgb Hv).
  destruct (max_channel_byte rgb Hv) as (Hmx & Hr & Hg & Hb).
  destruct Hv as (Vr & Vg & Vb).
  unfold Binary64.cmykToRgb; simpl.
  fold (cmyk_back (RGB.r rgb) (max_channel rgb)).
  fold (cmyk_back (RGB.g rgb) (max_channel rgb)).
  fold (cmyk_back (RGB.b rgb) (max_channel rgb)).
  rewrite !b64_channel_back by assumption.
  now destruct rgb.
Qed.

(** Claim C5.  For every RGB triple with each channel in [[0,255]], the
    components [c], [m], [y], [k] of [rgbToCmyk rgb] lie in [[0,1]], and
    when the guard [k < 1.0 - 1e-12] fails (pure black) the result is
    [c = m = y = 0] and [k = 1]. *)
Theorem rgbToCmyk_unit_range (rgb : RGB.t) :
  valid_rgb rgb ->
  let cmyk := Binary64.rgbToCmyk rgb in
  unit_float (Binary64.CMYK.c cmyk) = true
  /\ unit_float (Binary64.CMYK.m cmyk) = true
  /\ unit_float (Binary64.CMYK.y cmyk) = true
  /\ unit_float (Binary64.CMYK.k cmyk) = true
  /\ (PrimFloat.ltb (Binary64.CMYK.k cmyk) (1.0 - 1e-12)%float = false ->
      cmyk = Binary64.CMYK.mk 0.0%float 0.0%float 0.0%float 1.0%float).
Proof.
  intros Hv cmyk; subst cmyk; rewrite (rgbToCmyk_bytes rgb Hv); simpl.
  destruct (max_channel_byte rgb Hv) as (Hmx & Hr & Hg & Hb).
  destruct Hv as (Vr & Vg & Vb).
  pose proof (byte_checked _ Hmx) as H.
  unfold byte_ok in H; rewrite !andb_true_iff in H.
  destruct H as [[[[Hk _] Hone] _] _].
  split; [now apply pair_checked |].
  split; [now apply pair_checked |].
  split; [now apply pair_checked |].
  split; [exact Hk |].
  intros Hg0; change (cmyk_guard (max_channel rgb) = false) in Hg0.
  unfold cmyk_c; rewrite Hg0 in *; simpl in Hone.
  apply FloatAxioms.Leibniz.eqb_spec in Hone. now rewrite Hone.
Qed.

(** Claim C9.  For every RGB triple with each channel in [[0,255]], at
    least one of [c], [m], [y] in [rgbToCmyk rgb] is exactly [0]: the
    component of a channel that attains the maximum. *)
Theorem rgbToCmyk_has_zero_component (rgb : RGB.t) :
  valid_rgb rgb ->
  let cmyk := Binary64.rgbToCmyk rgb in
  Binary64.CMYK.c cmyk = 0.0%float
  \/ Binary64.CMYK.m cmyk = 0.0%float
  \/ Binary64.CMYK.y cmyk = 0.0%float.
Proof.
  intros Hv cmyk; subst cmyk; rewrite (rgbToCmyk_bytes rgb Hv); simpl.
  destruct (max_channel_byte rgb Hv) as (Hmx & _).
  pose proof (byte_checked _ Hmx) as H.
  unfold byte_ok in H; rewrite !andb_true_iff in H.
  destruct H as [[[[_ Hz] _] _] _].
  apply FloatAxioms.Leibniz.eqb_spec in Hz.
  assert (Hcase : max_channel rgb = RGB.r rgb \/ max_channel rgb = RGB.g rgb
                  \/ max_channel rgb = RGB.b rgb)
    by (unfold max_channel; lia).
  destruct Hcase as [E | [E | E]]; rewrite E in Hz at 1; auto.
Qed.

Lemma cmykToRgb_rgbToCmyk_witness :
  valid_rgb (RGB.mk 10 200 30)
  /\ Binary64.cmykToRgb x86_cast_overflow_b64
       (Binary64.rgbToCmyk (RGB.mk 10 200 30)) = RGB.mk 10 200 30.
Proof.
  assert (Hv : valid_rgb (RGB.mk 10 200 30))
    by (unfold valid_rgb; simpl; lia).
  split; [exact Hv | exact (cmykToRgb_rgbToCmyk _ _ Hv)].
Defined.

Lemma rgbToCmyk_unit_range_witness :
  valid_rgb (RGB.mk 0 0 0)
  /\ Binary64.rgbToCmyk (RGB.mk 0 0 0)
     = Binary64.CMYK.mk 0.0%float 0.0%float 0.0%float 1.0%float.
Proof.
  assert (Hv : valid_rgb (RGB.mk 0 0 0)) by (unfold valid_rgb; simpl; lia).
  split; [exact Hv |].
  apply (rgbToCmyk_unit_range _ Hv). vm_compute. reflexivity.
Defined.

Lemma rgbToCmyk_has_zero_component_witness :
  valid_rgb (RGB.mk 10 200 30)
  /\ (Binary64.CMYK.c (Binary64.rgbToCmyk (RGB.mk 10 200 30)) = 0.0%float
      \/ Binary64.CMYK.m (Binary64.rgbToCmyk (RGB.mk 10 200 30)) = 0.0%float
      \/ Binary64.CMYK.y (Binary64.rgbToCmyk (RGB.mk 10 200 30)) = 0.0%float).
Proof.
  assert (Hv : valid_rgb (RGB.mk 10 200 30))
    by (unfold valid_rgb; simpl; lia).
  split; [exact Hv | exact (rgbToCmyk_has_zero_component _ Hv)].
Defined.

(** * Further properties of the engine *)

(** ** RGB -> Lab -> RGB *)

(** The Lab round trip returns the original triple: [labToXyz] undoes
    [xyzToLab] exactly, so what is left is the XYZ round trip. *)
Theorem labToRgb_rgbToLab_triple (ov : R -> Z) (rgb : RGB.t) :
  valid_rgb rgb ->
  exists clipped : bool, labToRgb ov (rgbToLab rgb) = (rgb, clipped).
Proof.
  intros Hv; unfold labToRgb, rgbToLab; rewrite labToXyz_xyzToLab.
  exists (snd (xyzToRgb ov (rgbToXyz rgb))).
  pose proof (xyzToRgb_rgbToXyz_fst ov rgb Hv) as H.
  destruct (xyzToRgb ov (rgbToXyz rgb)) as [rgb' flag].
  simpl in H; now subst.
Qed.

Lemma labToRgb_rgbToLab_triple_witness :
  valid_rgb (RGB.mk 0 128 255)
  /\ exists clipped : bool,
       labToRgb x86_cast_overflow (rgbToLab (RGB.mk 0 128 255))
       = (RGB.mk 0 128 255, clipped).
Proof.
  assert (Hv : valid_rgb (RGB.mk 0 128 255))
    by (unfold valid_rgb; simpl; lia).
  split; [exact Hv | exact (labToRgb_rgbToLab_triple _ _ Hv)].
Defined.

(** ** The transfer curve and its inverse *)

Lemma transfer_curve_inverse :
  (forall v : R,
      v <= 12.92 * 0.0031308 \/ 0.04045 < v -> gammaSRGB (invGamma v) = v)
  /\ (forall x : R,
        x <= 0.0031308 \/ pow_inv 0.04045 < x -> invGamma (gammaSRGB x) = x).
Proof.
  pose proof invGamma_threshold as Hthr. split.
  - intros v [Hv | Hv].
    + rewrite invGamma_linear by lra.
      rewrite gammaSRGB_linear by lra. rdec; field.
    + rewrite invGamma_power by assumption.
      assert (pow_inv 0.04045 <= pow_inv v) by (apply pow_inv_mono; lra).
      rewrite gammaSRGB_power by lra.
      rewrite Rpower_pow_inv by lra. rdec; field.
  - intros x [Hx | Hx].
    + rewrite gammaSRGB_linear by assumption.
      rewrite invGamma_linear by lra. rdec; field.
    + assert (Hx0 : 0.0031308 < x) by lra.
      assert (Hg : 0.04045 < gammaSRGB x)
        by (apply gammaSRGB_gt; lra).
      rewrite invGamma_power by assumption.
      rewrite gammaSRGB_power by assumption.
      unfold pow_inv, pow.
      replace ((1.055 * Rpower x (1.0 / 2.4) - 0.055 + 0.055) / 1.055)
        with (Rpower x (1.0 / 2.4)) by (rdec; field).
      rewrite Rpower_mult.
      replace (1.0 / 2.4 * 2.4) with 1 by lra.
      apply Rpower_1; lra.
Qed.

(** Inside the window [(12.92 * 0.0031308, 0.04045]] [invGamma] takes
    its linear branch and [gammaSRGB] its power branch. *)
Lemma gammaSRGB_invGamma_window (v : R) :
  12.92 * 0.0031308 < v <= 0.04045 ->
  within 0.000001 (gammaSRGB (invGamma v)) v.
Proof.
  intros [Hlo Hhi]; rewrite invGamma_linear by assumption.
  set (x := v / 12.92).
  assert (Hx : 0.0031308 < x <= 0.04045 / 12.92) by (unfold x; lra).
  unfold within.
  assert (Hup : gammaSRGB x < v + 0.000001).
  { apply gammaSRGB_lt; [lra | lra |].
    assert (H1 : pow_inv (12.92 * 0.0031308 + 0.000001)
                 <= pow_inv (v + 0.000001)) by (apply pow_inv_mono; lra).
    assert (H2 : 0.00313085 <= pow_inv (12.92 * 0.0031308 + 0.000001)).
    { unfold pow_inv, pow; apply Rpower_24_lower; [lra | lra |].
      simpl; lra. }
    lra. }
  assert (Hdn : v - 0.000001 < gammaSRGB x).
  { apply gammaSRGB_gt; [lra | lra |].
    assert (H1 : pow_inv (v - 0.000001) <= pow_inv (0.04045 - 0.000001))
      by (apply pow_inv_mono; lra).
    assert (H2 : pow_inv (0.04045 - 0.000001) <= 0.0031308).
    { unfold pow_inv, pow; apply Rpower_24_upper; [lra | lra |].
      simpl; lra. }
    lra. }
  lra.
Qed.

(** Inside the window [(0.0031308, pow_inv 0.04045]] [gammaSRGB] takes
    its power branch and [invGamma] its linear branch. *)
Lemma invGamma_gammaSRGB_window (x : R) :
  0.0031308 < x <= pow_inv 0.04045 ->
  within 0.000001 (invGamma (gammaSRGB x)) x.
Proof.
  intros [Hlo Hhi].
  assert (Hg1 : gammaSRGB x <= 0.04045).
  { rewrite gammaSRGB_power by assumption.
    assert (H : Rpower x (1.0 / 2.4)
                <= Rpower (pow_inv 0.04045) (1.0 / 2.4))
      by (apply Rle_Rpower_l; lra).
    rewrite Rpower_pow_inv in H by lra. lra. }
  assert (Hg0 : 0.040445 < gammaSRGB x).
  { apply gammaSRGB_gt; [lra | lra |].
    assert (H : pow_inv 0.040445 <= 0.0031308); [ | lra].
    unfold pow_inv, pow; apply Rpower_24_upper; [lra | lra |].
    simpl; lra. }
  assert (Hp : pow_inv 0.04045 <= 0.0031309).
  { unfold pow_inv, pow; apply Rpower_24_upper; [lra | lra |].
    simpl; lra. }
  rewrite invGamma_linear by assumption. unfold within; lra.
Qed.

(** The two halves of the sRGB transfer curve undo each other on
    [[0,1]] to within a millionth: exactly outside the narrow window
    where their thresholds disagree, and closely inside it. *)
Theorem transfer_curve_round_trip (v x : R) :
  0 <= v <= 1 -> 0 <= x <= 1 ->
  within 0.000001 (gammaSRGB (invGamma v)) v
  /\ within 0.000001 (invGamma (gammaSRGB x)) x.
Proof.
  intros _ _; split.
  - destruct (Rle_lt_dec v (12.92 * 0.0031308)) as [H1 | H1];
      [ | destruct (Rlt_le_dec 0.04045 v) as [H2 | H2]].
    + rewrite (proj1 transfer_curve_inverse) by (left; assumption).
      unfold within; lra.
    + rewrite (proj1 transfer_curve_inverse) by (right; assumption).
      unfold within; lra.
    + apply gammaSRGB_invGamma_window; lra.
  - destruct (Rle_lt_dec x 0.0031308) as [H1 | H1];
      [ | destruct (Rlt_le_dec (pow_inv 0.04045) x) as [H2 | H2]].
    + rewrite (proj2 transfer_curve_inverse) by (left; assumption).
      unfold within; lra.
    + rewrite (proj2 transfer_curve_inverse) by (right; assumption).
      unfold within; lra.
    + apply invGamma_gammaSRGB_window; lra.
Qed.

Lemma transfer_curve_round_trip_witness :
  0 <= 0.0404 <= 1 /\ 0 <= 0.5 <= 1
  /\ within 0.000001 (gammaSRGB (invGamma 0.0404)) 0.0404.
Proof.
  assert (Hv : 0 <= 0.0404 <= 1) by lra.
  assert (Hx : 0 <= 0.5 <= 1) by lra.
  split; [exact Hv |]. split; [exact Hx |].
  exact (proj1 (transfer_curve_round_trip 0.0404 0.5 Hv Hx)).
Defined.

(** ** CMYK -> RGB on valid input *)

Lemma ink_product_range (c k : R) :
  0 <= c <= 1 -> 0 <= k <= 1 -> 0 <= 255.0 * (1.0 - c) * (1.0 - k) <= 255.
Proof. intros Hc Hk; split; nra. Qed.

Lemma cmykToRgb_unclamped (ov : R -> Z) (cmyk : CMYK.t) :
  valid_cmyk cmyk ->
  IZR (RGB.r (cmykToRgb ov cmyk))
  = round (255.0 * (1.0 - CMYK.c cmyk) * (1.0 - CMYK.k cmyk))
  /\ IZR (RGB.g (cmykToRgb ov cmyk))
     = round (255.0 * (1.0 - CMYK.m cmyk) * (1.0 - CMYK.k cmyk))
  /\ IZR (RGB.b (cmykToRgb ov cmyk))
     = round (255.0 * (1.0 - CMYK.y cmyk) * (1.0 - CMYK.k cmyk)).
Proof.
  intros (Hc & Hm & Hy & Hk); unfold cmykToRgb; simpl.
  repeat split; apply channel_in_range_exact; now apply ink_product_range.
Qed.

(** For CMYK components in [[0,1]] each byte of [cmykToRgb] is the
    integer nearest to [255 * (1 - ink) * (1 - k)]; the margin
    [0.0000001] on the one half is for the rounding of the product on
    the doubles. *)
Theorem cmykToRgb_valid_nearest (ov : R -> Z) (cmyk : CMYK.t) :
  valid_cmyk cmyk ->
  within 0.5000001 (IZR (RGB.r (cmykToRgb ov cmyk)))
         (255.0 * (1.0 - CMYK.c cmyk) * (1.0 - CMYK.k cmyk))
  /\ within 0.5000001 (IZR (RGB.g (cmykToRgb ov cmyk)))
            (255.0 * (1.0 - CMYK.m cmyk) * (1.0 - CMYK.k cmyk))
  /\ within 0.5000001 (IZR (RGB.b (cmykToRgb ov cmyk)))
            (255.0 * (1.0 - CMYK.y cmyk) * (1.0 - CMYK.k cmyk)).
Proof.
  intros Hv; destruct (cmykToRgb_unclamped ov cmyk Hv) as (Er & Eg & Eb).
  rewrite Er, Eg, Eb; unfold within.
  pose proof (round_error
                (255.0 * (1.0 - CMYK.c cmyk) * (1.0 - CMYK.k cmyk))).
  pose proof (round_error
                (255.0 * (1.0 - CMYK.m cmyk) * (1.0 - CMYK.k cmyk))).
  pose proof (round_error
                (255.0 * (1.0 - CMYK.y cmyk) * (1.0 - CMYK.k cmyk))).
  repeat split; lra.
Qed.

Lemma cmykToRgb_valid_nearest_witness :
  valid_cmyk (CMYK.mk 0.5 0 1 0.25)
  /\ within 0.5000001
       (IZR (RGB.r (cmykToRgb x86_cast_overflow (CMYK.mk 0.5 0 1 0.25))))
       (255.0 * (1.0 - 0.5) * (1.0 - 0.25)).
Proof.
  assert (Hv : valid_cmyk (CMYK.mk 0.5 0 1 0.25))
    by (unfold valid_cmyk; simpl; lra).
  split; [exact Hv | exact (proj1 (cmykToRgb_valid_nearest _ _ Hv))].
Defined.

(** More ink never gives a lighter colour: on valid input [cmykToRgb] is
    antitone in each of [c], [m], [y], [k]. *)
Theorem cmykToRgb_antitone (ov : R -> Z) (p q : CMYK.t) :
  valid_cmyk p -> valid_cmyk q ->
  CMYK.c p <= CMYK.c q -> CMYK.m p <= CMYK.m q ->
  CMYK.y p <= CMYK.y q -> CMYK.k p <= CMYK.k q ->
  (RGB.r (cmykToRgb ov q) <= RGB.r (cmykToRgb ov p))%Z
  /\ (RGB.g (cmykToRgb ov q) <= RGB.g (cmykToRgb ov p))%Z
  /\ (RGB.b (cmykToRgb ov q) <= RGB.b (cmykToRgb ov p))%Z.
Proof.
  intros Hp Hq Hc Hm Hy Hk.
  destruct (cmykToRgb_unclamped ov p Hp) as (Pr & Pg & Pb).
  destruct (cmykToRgb_unclamped ov q Hq) as (Qr & Qg & Qb).
  destruct Hp as (Pc & Pm & Py & Pk), Hq as (Qc & Qm & Qy & Qk).
  repeat split; apply le_IZR.
  - rewrite Pr, Qr; apply round_mono; nra.
  - rewrite Pg, Qg; apply round_mono; nra.
  - rewrite Pb, Qb; apply round_mono; nra.
Qed.

Lemma cmykToRgb_antitone_witness :
  valid_cmyk (CMYK.mk 0.25 0 0.5 0.25) /\ valid_cmyk (CMYK.mk 0.5 0 1 0.25)
  /\ (RGB.r (cmykToRgb x86_cast_overflow (CMYK.mk 0.5 0 1 0.25))
      <= RGB.r (cmykToRgb x86_cast_overflow (CMYK.mk 0.25 0 0.5 0.25)))%Z.
Proof.
  assert (Hp : valid_cmyk (CMYK.mk 0.25 0 0.5 0.25))
    by (unfold valid_cmyk; simpl; lra).
  assert (Hq : valid_cmyk (CMYK.mk 0.5 0 1 0.25))
    by (unfold valid_cmyk; simpl; lra).
  split; [exact Hp |]. split; [exact Hq |].
  refine (proj1 (cmykToRgb_antitone _ _ _ Hp Hq _ _ _ _)); simpl; lra.
Defined.

(** ** Ranges of RGB -> XYZ -> Lab *)

Lemma rgbToXyz_bounds (rgb : RGB.t) :
  valid_rgb rgb ->
  0 <= XYZ.X (rgbToXyz rgb) <= REF_X
  /\ 0 <= XYZ.Y (rgbToXyz rgb) <= 100.00001
  /\ 0 <= XYZ.Z (rgbToXyz rgb) <= REF_Z.
Proof.
  intros (Hr & Hg & Hb).
  pose proof (invGamma_unit _ Hr) as Ur.
  pose proof (invGamma_unit _ Hg) as Ug.
  pose proof (invGamma_unit _ Hb) as Ub.
  unfold rgbToXyz, REF_X, REF_Z; simpl; repeat split; lra.
Qed.

(** XYZ of a byte colour lies between black and the white point of the
    matrix: X and Z never exceed the reference white, Y exceeds it by at
    most [0.00001] because the middle row of the matrix sums to
    [1.0000001]. *)
Theorem rgbToXyz_range (rgb : RGB.t) :
  valid_rgb rgb ->
  0 <= XYZ.X (rgbToXyz rgb) <= REF_X
  /\ 0 <= XYZ.Y (rgbToXyz rgb) <= 100.00001
  /\ 0 <= XYZ.Z (rgbToXyz rgb) <= REF_Z.
Proof.
  intros Hv; exact (rgbToXyz_bounds rgb Hv).
Qed.

Lemma rgbToXyz_range_witness :
  valid_rgb (RGB.mk 255 255 255)
  /\ 0 <= XYZ.Y (rgbToXyz (RGB.mk 255 255 255)) <= 100.00001.
Proof.
  assert (Hv : valid_rgb (RGB.mk 255 255 255))
    by (unfold valid_rgb; simpl; lia).
  split; [exact Hv | exact (proj1 (proj2 (rgbToXyz_range _ Hv)))].
Defined.

(** The piecewise function [f] of [xyzToLab] is nondecreasing: its linear
    branch ends below the start of its cube-root branch. *)
Lemma xyzToLab_f_mono (t t' : R) : t <= t' -> xyzToLab_f t <= xyzToLab_f t'.
Proof.
  intros Hle; unfold xyzToLab_f; cbv zeta; repeat cmp_cases.
  - assert (Ht : 0 < t) by lra. assert (Ht' : 0 < t') by lra.
    pose proof (cbrt_cube t Ht). pose proof (cbrt_cube t' Ht').
    pose proof (cbrt_gt_0 t Ht). pose proof (cbrt_gt_0 t' Ht').
    destruct (Rle_lt_dec (cbrt t) (cbrt t')) as [Hc | Hc]; [assumption |].
    assert (cbrt t' * cbrt t' < cbrt t * cbrt t) by nra.
    assert (cbrt t' * cbrt t' * cbrt t' < cbrt t * cbrt t * cbrt t) by nra.
    lra.
  - lra.
  - assert (Ht' : 0 < t') by lra.
    pose proof (cbrt_cube t' Ht'). pose proof (cbrt_gt_0 t' Ht').
    pose proof f_linear_max_cube.
    assert (f_linear_max < cbrt t') by (apply cube_lt_reg; lra).
    unfold f_linear_max in *; lra.
  - lra.
Qed.

Lemma xyzToLab_L_mono (p q : XYZ.t) :
  XYZ.Y p <= XYZ.Y q -> Lab.L (xyzToLab p) <= Lab.L (xyzToLab q).
Proof.
  intros H; unfold xyzToLab; simpl.
  assert (xyzToLab_f (XYZ.Y p / REF_Y) <= xyzToLab_f (XYZ.Y q / REF_Y))
    by (apply xyzToLab_f_mono; unfold REF_Y; lra).
  lra.
Qed.

Lemma rgbToLab_L_bounds (rgb : RGB.t) :
  valid_rgb rgb -> 0 <= Lab.L (rgbToLab rgb) <= 100.0000116.
Proof.
  intros Hv; destruct (rgbToXyz_bounds rgb Hv) as (_ & [Y0 Y1] & _).
  unfold rgbToLab.
  pose proof (xyzToLab_L_mono (XYZ.mk 0 0 0) (rgbToXyz rgb) Y0) as Hlo.
  pose proof (xyzToLab_L_mono (rgbToXyz rgb) (XYZ.mk 0 100.00001 0) Y1)
    as Hhi.
  assert (L0 : Lab.L (xyzToLab (XYZ.mk 0 0 0)) = 0).
  { unfold xyzToLab, xyzToLab_f, REF_Y; simpl; cmp_cases; lra. }
  assert (L1 : Lab.L (xyzToLab (XYZ.mk 0 100.00001 0)) <= 100.0000116).
  { unfold xyzToLab, xyzToLab_f, REF_Y; simpl; cmp_cases; [ | lra].
    set (t := 100.00001 / 100.0) in *.
    assert (Ht : 0 < t) by lra.
    pose proof (cbrt_cube t Ht). pose proof (cbrt_gt_0 t Ht).
    assert (cbrt t < 1.0000001).
    { apply cube_lt_reg; [lra |]. unfold t in *; lra. }
    lra. }
  lra.
Qed.

(** Lightness of a byte colour: [0] at least, and at most
    [116 * 1.0000001 - 16], so that it rounds into [0 .. 100]. *)
Theorem rgbToLab_L_range (rgb : RGB.t) :
  valid_rgb rgb -> 0 <= Lab.L (rgbToLab rgb) <= 100.0000116.
Proof.
  intros Hv; exact (rgbToLab_L_bounds rgb Hv).
Qed.

Lemma rgbToLab_L_range_witness :
  valid_rgb (RGB.mk 255 255 255)
  /\ 0 <= Lab.L (rgbToLab (RGB.mk 255 255 255)) <= 100.0000116.
Proof.
  assert (Hv : valid_rgb (RGB.mk 255 255 255))
    by (unfold valid_rgb; simpl; lia).
  split; [exact Hv | exact (rgbToLab_L_range _ Hv)].
Defined.

(** ** The special case of [rgbToCmyk], on the doubles *)

(** The branch [c = m = y = 0] of [rgbToCmyk] is taken for pure black
    only: for every other byte colour [k < 1.0 - 1e-12] holds. *)
Theorem rgbToCmyk_special_case_black (rgb : RGB.t) :
  valid_rgb rgb ->
  PrimFloat.ltb (Binary64.CMYK.k (Binary64.rgbToCmyk rgb))
                (1.0 - 1e-12)%float = false
  <-> rgb = RGB.mk 0 0 0.
Proof.
  intros Hv; rewrite (rgbToCmyk_bytes rgb Hv); cbn [Binary64.CMYK.k].
  destruct (max_channel_byte rgb Hv) as (Hmx & Hr & Hg & Hb).
  pose proof (byte_checked _ Hmx) as H.
  unfold byte_ok in H; rewrite !andb_true_iff in H.
  destruct H as [[_ Hguard] _]. apply Bool.eqb_prop in Hguard.
  fold (cmyk_guard (max_channel rgb)).
  rewrite Hguard. destruct Hv as (Vr & Vg & Vb).
  destruct rgb as [r g b]; unfold max_channel in *; simpl in *.
  rewrite Z.ltb_ge; split.
  - intros Hle; f_equal; lia.
  - intros E; injection E; lia.
Qed.

Lemma rgbToCmyk_special_case_black_witness :
  valid_rgb (RGB.mk 0 0 1)
  /\ (PrimFloat.ltb (Binary64.CMYK.k (Binary64.rgbToCmyk (RGB.mk 0 0 1)))
                    (1.0 - 1e-12)%float = false
      <-> RGB.mk 0 0 1 = RGB.mk 0 0 0).
Proof.
  assert (Hv : valid_rgb (RGB.mk 0 0 1)) by (unfold valid_rgb; simpl; lia).
  split; [exact Hv | exact (rgbToCmyk_special_case_black _ Hv)].
Defined.

(** * Properties of the window *)

(** Reduce the bookkeeping of the widgets and leave the engine alone. *)
Ltac window_simpl :=
  cbn [value preview warning internalUpdate reentered
       setValue setText setInternalUpdate setPreview setWarning
       store widget_eqb widget_id Nat.eqb slider_range
       negb andb orb].

Lemma clampInt_fix (v lo hi : Z) :
  (lo <= v <= hi)%Z -> clampInt v lo hi = v.
Proof. unfold clampInt; lia. Qed.

(** ** Signals never re-enter a slot *)

Section SlotProperties.

Variable ov : R -> Z.

Lemma setFromRGB_idle (r g b : Z) (st : Window) :
  reentered st = false -> idle (setFromRGB ov r g b st).
Proof.
  intros H; unfold idle, setFromRGB; window_simpl; rewrite H; auto.
Qed.

Lemma setFromLab_idle (L a b : R) (st : Window) :
  reentered st = false -> idle (setFromLab ov L a b st).
Proof.
  intros H; unfold idle, setFromLab.
  destruct (labToRgb ov _) as [rgb clipped].
  window_simpl; rewrite H; auto.
Qed.

Lemma setFromCmyk_idle (c m y k : R) (st : Window) :
  reentered st = false -> idle (setFromCmyk ov c m y k st).
Proof.
  intros H; unfold idle, setFromCmyk; window_simpl; rewrite H; auto.
Qed.

(** Every write to a slider happens while [internalUpdate] is set, so no
    [valueChanged] ever calls a slot from inside a slot, and every slot
    leaves [internalUpdate] cleared. *)
Theorem no_reentrancy (st : Window) :
  idle st ->
  (forall r g b, idle (setFromRGB ov r g b st))
  /\ (forall L a b, idle (setFromLab ov L a b st))
  /\ (forall c m y k, idle (setFromCmyk ov c m y k st))
  /\ idle (onRgbSliderChanged ov st)
  /\ idle (onRgbEditChanged ov st)
  /\ idle (onLabSliderChanged ov st)
  /\ idle (onLabEditChanged ov st)
  /\ idle (onCmykSliderChanged ov st)
  /\ idle (onCmykEditChanged ov st)
  /\ (forall col, idle (onOpenColorDialog ov col st)).
Proof.
  intros [Hflag Hre].
  repeat match goal with |- _ /\ _ => split end; intros.
  - now apply setFromRGB_idle.
  - now apply setFromLab_idle.
  - now apply setFromCmyk_idle.
  - unfold onRgbSliderChanged; apply setFromRGB_idle; window_simpl; exact Hre.
  - unfold onRgbEditChanged; apply setFromRGB_idle; window_simpl.
    now rewrite Hre.
  - unfold onLabSliderChanged; apply setFromLab_idle; window_simpl; exact Hre.
  - unfold onLabEditChanged; apply setFromLab_idle; window_simpl.
    now rewrite Hre.
  - unfold onCmykSliderChanged; apply setFromCmyk_idle; window_simpl.
    exact Hre.
  - unfold onCmykEditChanged; apply setFromCmyk_idle; window_simpl.
    now rewrite Hre.
  - unfold onOpenColorDialog; destruct col as [[r g b] |].
    + apply setFromRGB_idle; window_simpl. now rewrite Hre.
    + split; assumption.
Qed.

End SlotProperties.

Lemma blank_window_idle : idle blank_window.
Proof. split; reflexivity. Qed.

Lemma no_reentrancy_witness :
  idle blank_window
  /\ idle (onRgbSliderChanged x86_cast_overflow blank_window).
Proof.
  split; [exact blank_window_idle |].
  exact (proj1 (proj2 (proj2 (proj2
           (no_reentrancy x86_cast_overflow _ blank_window_idle))))).
Defined.

(** ** What the widgets show *)

Lemma round_int_exact (ov : R -> Z) (x : R) (a b : Z) :
  IZR a - / 2 < x < IZR b + / 2 ->
  (INT_MIN <= a)%Z -> (b <= INT_MAX)%Z ->
  IZR (round_int ov x) = round x /\ (a <= round_int ov x <= b)%Z.
Proof.
  intros Hx Ha Hb; pose proof (round_bounds_half x a b Hx) as [H1 H2].
  unfold round_int.
  assert (Hz : exists z : Z, round x = IZR z).
  { unfold round; destruct (Rleb 0 x); eexists; reflexivity. }
  destruct Hz as [z Hz]; rewrite Hz in *.
  apply le_IZR in H1, H2.
  rewrite to_int_IZR by lia. split; [reflexivity | lia].
Qed.

(** The identity behind the CMYK round trip, on the components of
    [rgbToCmyk]. *)
Lemma rgbToCmyk_ink_identity (rgb : RGB.t) :
  valid_rgb rgb ->
  let cmyk := rgbToCmyk rgb in
  255.0 * (1.0 - CMYK.c cmyk) * (1.0 - CMYK.k cmyk) = IZR (RGB.r rgb)
  /\ 255.0 * (1.0 - CMYK.m cmyk) * (1.0 - CMYK.k cmyk) = IZR (RGB.g rgb)
  /\ 255.0 * (1.0 - CMYK.y cmyk) * (1.0 - CMYK.k cmyk) = IZR (RGB.b rgb).
Proof.
  intros (Hr & Hg & Hb); destruct rgb as [r g b]; simpl in *.
  pose proof (cmyk_channel_exact r (max_channel (RGB.mk r g b))) as Er.
  pose proof (cmyk_channel_exact g (max_channel (RGB.mk r g b))) as Eg.
  pose proof (cmyk_channel_exact b (max_channel (RGB.mk r g b))) as Eb.
  unfold max_channel in Er, Eg, Eb; simpl in Er, Eg, Eb.
  unfold rgbToCmyk; rewrite max3_IZR; simpl.
  destruct (Rltb _ _); simpl; simpl in Er, Eg, Eb;
    (split; [apply Er; lia | split; [apply Eg; lia | apply Eb; lia]]).
Qed.

Lemma percent_exact (ov : R -> Z) (x : R) :
  0 <= x <= 1 ->
  clampInt (round_int ov (x * 100.0)) 0 100 = round_int ov (x * 100)
  /\ IZR (round_int ov (x * 100)) = round (x * 100)
  /\ (0 <= round_int ov (x * 100) <= 100)%Z.
Proof.
  intros Hx. replace (x * 100.0) with (x * 100) by lra.
  destruct (round_int_exact ov (x * 100) 0 100) as [E Hr];
    [lra | unfold INT_MIN; lia | unfold INT_MAX; lia |].
  split; [now apply clampInt_fix | split; assumption].
Qed.

Section Shown.

Variable ov : R -> Z.

(** After [setFromRGB] on a byte colour each CMYK slider agrees with
    its line edit, lies in [0 .. 100] without having been bounded, and
    is the integer nearest to 100 times the component; the same holds of
    the L slider and the lightness. *)
Theorem setFromRGB_percent_widgets (r g b : Z) (st : Window) :
  valid_rgb (RGB.mk r g b) ->
  let st' := setFromRGB ov r g b st in
  let cmyk := rgbToCmyk (RGB.mk r g b) in
  shown_rounded st' sC eC (CMYK.c cmyk * 100)
  /\ shown_rounded st' sM eM (CMYK.m cmyk * 100)
  /\ shown_rounded st' sY eY (CMYK.y cmyk * 100)
  /\ shown_rounded st' sK eK (CMYK.k cmyk * 100)
  /\ shown_rounded st' sL eL (Lab.L (rgbToLab (RGB.mk r g b))).
Proof.
  intros Hv st' cmyk; subst st' cmyk.
  destruct (rgbToCmyk_range_real _ Hv) as (Hc & Hm & Hy & Hk).
  pose proof (rgbToLab_L_bounds _ Hv) as HL.
  unfold shown_rounded, within, setFromRGB; window_simpl.
  destruct (percent_exact ov _ Hc) as (Ec & Ec' & Rc).
  destruct (percent_exact ov _ Hm) as (Em & Em' & Rm).
  destruct (percent_exact ov _ Hy) as (Ey & Ey' & Ry).
  destruct (percent_exact ov _ Hk) as (Ek & Ek' & Rk).
  rewrite Ec, Em, Ey, Ek.
  destruct (round_int_exact ov (Lab.L (rgbToLab (RGB.mk r g b))) 0 100)
    as [EL HLr]; [lra | unfold INT_MIN; lia | unfold INT_MAX; lia |].
  rewrite (clampInt_fix _ 0 100 HLr).
  rewrite Ec', Em', Ey', Ek', EL.
  pose proof (round_error (CMYK.c (rgbToCmyk (RGB.mk r g b)) * 100)).
  pose proof (round_error (CMYK.m (rgbToCmyk (RGB.mk r g b)) * 100)).
  pose proof (round_error (CMYK.y (rgbToCmyk (RGB.mk r g b)) * 100)).
  pose proof (round_error (CMYK.k (rgbToCmyk (RGB.mk r g b)) * 100)).
  pose proof (round_error (Lab.L (rgbToLab (RGB.mk r g b)))).
  repeat match goal with |- _ /\ _ => split end;
    try reflexivity; try lia; lra.
Qed.

(** After [setFromLab] and after [setFromCmyk] the RGB sliders, the RGB
    line edits and the preview show the same three bytes: what the
    engine returns is already in [[0,255]], so no slider has to bound
    it, whatever Lab or CMYK value came in. *)
Theorem rgb_widgets_agree (st : Window) :
  (forall L a b, rgb_shown (setFromLab ov L a b st))
  /\ (forall c m y k, rgb_shown (setFromCmyk ov c m y k st)).
Proof.
  split.
  - intros L a b.
    pose proof (xyzToRgb_in_byte_range ov (labToXyz (Lab.mk L a b)))
      as (Hr & Hg & Hb).
    unfold rgb_shown, setFromLab, labToRgb in *.
    destruct (xyzToRgb ov (labToXyz (Lab.mk L a b))) as [rgb clipped].
    simpl in Hr, Hg, Hb. window_simpl.
    rewrite !clampInt_fix by assumption.
    unfold in_byte_range; repeat split; (reflexivity || lia).
  - intros c m y k.
    pose proof (cmykToRgb_in_byte_range ov (CMYK.mk c m y k))
      as (Hr & Hg & Hb).
    unfold rgb_shown, setFromCmyk. window_simpl.
    rewrite !clampInt_fix by assumption.
    unfold in_byte_range; repeat split; (reflexivity || lia).
Qed.

(** A colour sent through the integer percentages of the CMYK widgets
    ([setFromRGB], then [editingFinished] in a CMYK line edit, which
    reads the four percentages back) returns with each channel at most 3
    away from the original: the percentages keep two decimals of each
    ink. *)
Theorem percent_round_trip (r g b : Z) (st : Window) :
  valid_rgb (RGB.mk r g b) ->
  let st' := onCmykEditChanged ov (setFromRGB ov r g b st) in
  (Z.abs (value st' sR - r) <= 3)%Z
  /\ (Z.abs (value st' sG - g) <= 3)%Z
  /\ (Z.abs (value st' sB - b) <= 3)%Z.
Proof.
  intros Hv st'; subst st'.
  destruct (rgbToCmyk_range_real _ Hv) as (Hc & Hm & Hy & Hk).
  destruct (rgbToCmyk_ink_identity _ Hv) as (Ir & Ig & Ib).
  cbn [RGB.r RGB.g RGB.b] in Ir, Ig, Ib.
  unfold onCmykEditChanged, setFromCmyk, setFromRGB; window_simpl.
  destruct (percent_exact ov _ Hc) as (Ec & Ec' & Rc).
  destruct (percent_exact ov _ Hm) as (Em & Em' & Rm).
  destruct (percent_exact ov _ Hy) as (Ey & Ey' & Ry).
  destruct (percent_exact ov _ Hk) as (Ek & Ek' & Rk).
  clear Ec Em Ey Ek.
  set (cmyk := rgbToCmyk (RGB.mk r g b)) in *.
  set (C := round_int ov (CMYK.c cmyk * 100)) in *.
  set (M := round_int ov (CMYK.m cmyk * 100)) in *.
  set (Y := round_int ov (CMYK.y cmyk * 100)) in *.
  set (K := round_int ov (CMYK.k cmyk * 100)) in *.
  set (back := cmykToRgb ov (CMYK.mk (IZR C / 100.0) (IZR M / 100.0)
                                     (IZR Y / 100.0) (IZR K / 100.0))).
  pose proof (cmykToRgb_in_byte_range ov
                (CMYK.mk (IZR C / 100.0) (IZR M / 100.0)
                         (IZR Y / 100.0) (IZR K / 100.0))) as (Br & Bg & Bb).
  fold back in Br, Bg, Bb.
  rewrite !clampInt_fix by assumption.
  assert (Hvalid : valid_cmyk (CMYK.mk (IZR C / 100.0) (IZR M / 100.0)
                                       (IZR Y / 100.0) (IZR K / 100.0))).
  { destruct Rc as [Rc0 Rc1], Rm as [Rm0 Rm1], Ry as [Ry0 Ry1],
      Rk as [Rk0 Rk1].
    apply IZR_le in Rc0, Rc1, Rm0, Rm1, Ry0, Ry1, Rk0, Rk1.
    unfold valid_cmyk; simpl; repeat split; lra. }
  destruct (cmykToRgb_unclamped ov _ Hvalid) as (Xr & Xg & Xb).
  fold back in Xr, Xg, Xb; simpl in Xr, Xg, Xb.
  pose proof (round_error (CMYK.c cmyk * 100)) as Dc.
  pose proof (round_error (CMYK.m cmyk * 100)) as Dm.
  pose proof (round_error (CMYK.y cmyk * 100)) as Dy.
  pose proof (round_error (CMYK.k cmyk * 100)) as Dk.
  rewrite <- Ec' in Dc; rewrite <- Em' in Dm.
  rewrite <- Ey' in Dy; rewrite <- Ek' in Dk.
  assert (Hbound : forall (x c X : R) (n : Z),
             0 <= c <= 1 -> - / 2 <= X - c * 100 <= / 2 -> 0 <= X <= 100 ->
             255.0 * (1.0 - c) * (1.0 - CMYK.k cmyk) = x ->
             IZR n = round (255.0 * (1.0 - X / 100.0) * (1.0 - IZR K / 100.0)) ->
             -3.05 <= IZR n - x <= 3.05).
  { intros x c X n Hc0 HX HX' Hid Hn.
    destruct Rk as [Rk0 Rk1]. apply IZR_le in Rk0, Rk1.
    pose proof (round_error
                  (255.0 * (1.0 - X / 100.0) * (1.0 - IZR K / 100.0))) as E.
    rewrite <- Hn in E.
    set (k := CMYK.k cmyk) in *.
    assert (Hd : 255.0 * (1.0 - X / 100.0) * (1.0 - IZR K / 100.0) - x
                 = 255 * ((c - X / 100) * (1 - IZR K / 100)
                          + (1 - c) * (k - IZR K / 100)))
      by (rewrite <- Hid; rdec; field).
    assert (- 0.005 <= (c - X / 100) * (1 - IZR K / 100) <= 0.005)
      by (split; nra).
    assert (- 0.005 <= (1 - c) * (k - IZR K / 100) <= 0.005)
      by (split; nra).
    lra. }
  assert (Hint : forall n x : Z, -3.05 <= IZR n - IZR x <= 3.05 ->
                                 (Z.abs (n - x) <= 3)%Z).
  { intros n x [H1 H2]. rewrite <- minus_IZR in H1, H2.
    assert (IZR (n - x) < IZR 4) by lra.
    assert (IZR (-4) < IZR (n - x)) by lra.
    apply lt_IZR in H, H0. lia. }
  destruct Rc as [Rc0 Rc1], Rm as [Rm0 Rm1], Ry as [Ry0 Ry1].
  apply IZR_le in Rc0, Rc1, Rm0, Rm1, Ry0, Ry1.
  repeat split; apply Hint.
  - apply (Hbound _ (CMYK.c cmyk) (IZR C)); try assumption; lra.
  - apply (Hbound _ (CMYK.m cmyk) (IZR M)); try assumption; lra.
  - apply (Hbound _ (CMYK.y cmyk) (IZR Y)); try assumption; lra.
Qed.

End Shown.

Lemma setFromRGB_percent_widgets_witness :
  valid_rgb (RGB.mk 10 200 30)
  /\ shown_rounded (setFromRGB x86_cast_overflow 10 200 30 blank_window)
       sK eK (CMYK.k (rgbToCmyk (RGB.mk 10 200 30)) * 100).
Proof.
  assert (Hv : valid_rgb (RGB.mk 10 200 30))
    by (unfold valid_rgb; simpl; lia).
  split; [exact Hv |].
  exact (proj1 (proj2 (proj2 (proj2
    (setFromRGB_percent_widgets x86_cast_overflow 10 200 30
       blank_window Hv))))).
Defined.

Lemma percent_round_trip_witness :
  valid_rgb (RGB.mk 64 65 65)
  /\ (Z.abs (value (onCmykEditChanged x86_cast_overflow
                      (setFromRGB x86_cast_overflow 64 65 65 blank_window))
                   sR - 64) <= 3)%Z.
Proof.
  assert (Hv : valid_rgb (RGB.mk 64 65 65))
    by (unfold valid_rgb; simpl; lia).
  split; [exact Hv |].
  exact (proj1 (percent_round_trip x86_cast_overflow 64 65 65
                  blank_window Hv)).
Defined.
